(** * Verification of the meta-optimisation training script [train.py]

    The script trains a transformer while tuning the hyperparameters of its
    own optimiser.  This development embeds the parts of [train.py] that the
    specification talks about:

    - [Schedule]: the learning-rate schedule [get_lr] (lines 253-264), read
                  over exact arithmetic;
    - [Schedule64]: the same function as CPython evaluates it, on binary64
                  floats and with the exceptions of the int conversions;
    - [Masking]:  the gradient-masking policy applied after [loss.backward()]
                  (lines 344-352);
    - [Decay]:    the manual decoupled weight decay (lines 362-365);
    - [Loop]:     the control flow of the program: the start-up assertions
                  (lines 98-123) and the [while True] loop (lines 293-414)
                  with its evaluation, checkpoint, logging and termination
                  blocks.

    The definitions come first; the properties follow, one module of facts
    per module of definitions.

    Conventions.  Python [int]s are [Z].  The scalar floats and tensor
    entries that the script only combines arithmetically (rates, weights,
    gradients) are idealised as real numbers [R], and a statement made over
    [R] is a statement about exact arithmetic; where the rounding or the
    range of a float matters, the schedule is modelled a second time on
    binary64 ([Schedule64]).  The losses, which the script only compares
    and tests with [math.isnan], are values of [pyfloat], rationals
    extended with the two infinities and NaN under the IEEE comparison
    rules.  A Python exception is a value of [exn]; code that can raise
    returns a [result]. *)

From Stdlib Require Import ZArith QArith Qreals Reals Lra Lia List Bool.
From Stdlib Require Import SpecFloat.
From stdpp Require Import gmap strings.

Local Close Scope R_scope.
Local Close Scope Q_scope.
Local Open Scope Z_scope.

(** ** Python exceptions and results *)

Inductive exn : Type :=
| ZeroDivisionError
| AssertionError
| TypeError
| KeyError (key : string)
| NameError (name : string)
| OverflowError
| FileNotFoundError.

Inductive result (A : Type) : Type :=
| Return (a : A)
| Raise (e : exn).

Arguments Return {A} a.
Arguments Raise {A} e.

Definition rbind {A B} (r : result A) (f : A -> result B) : result B :=
  match r with
  | Return a => f a
  | Raise e => Raise e
  end.

(** ** The learning-rate schedule: [get_lr] *)

(** [get_lr] over exact arithmetic: the rates are real numbers, an int
    converts to the real it denotes, [math.cos] and [math.pi] are the cosine
    and pi.  The branches, the divisions by zero and the assertion are those
    of the code; the rounding of the float operations and the
    [OverflowError] of an int too large for a float are the subject of
    [Schedule64]. *)
Module Schedule.

(** The globals read by [get_lr]. *)
Record config : Type := Config {
  learning_rate : R;
  min_lr : R;
  warmup_iters : Z;
  lr_decay_iters : Z
}.

(** [decay_ratio = (it - warmup_iters) / (lr_decay_iters - warmup_iters)]:
    the true division of two Python ints, an exact ratio. *)
Definition decay_ratio (c : config) (it : Z) : Q :=
  (inject_Z (it - warmup_iters c) / inject_Z (lr_decay_iters c - warmup_iters c))%Q.

(** [assert 0 <= decay_ratio <= 1] *)
Definition ratio_in_range (r : Q) : bool :=
  Qle_bool 0 r && Qle_bool r 1.

Definition get_lr (c : config) (it : Z) : result R :=
  (* 1) linear warmup for warmup_iters steps *)
  if it <? warmup_iters c then
    if warmup_iters c =? 0 then Raise ZeroDivisionError
    else Return (learning_rate c * IZR it / IZR (warmup_iters c))%R
  (* 2) if it > lr_decay_iters, return min learning rate *)
  else if it >? lr_decay_iters c then Return (min_lr c)
  (* 3) in between, use cosine decay down to min learning rate *)
  else if lr_decay_iters c - warmup_iters c =? 0 then Raise ZeroDivisionError
  else
    let r := decay_ratio c it in
    if negb (ratio_in_range r) then Raise AssertionError
    else
      let coeff := (0.5 * (1.0 + cos (PI * Q2R r)))%R in
      Return (min_lr c + coeff * (learning_rate c - min_lr c))%R.

(** The configuration of the specification's end-to-end scenario (and the
    script's defaults). *)
Definition default : config :=
  Config (6 / 10000)%R (6 / 100000)%R 2000 600000.

(** A configuration with malformed bounds: the warmup ends after the
    decay horizon. *)
Definition inverted : config := Config 1%R 0%R 10 5.

(** A configuration whose warmup and decay horizons coincide. *)
Definition degenerate : config := Config 1%R 0%R 10 10.

End Schedule.

(** ** The learning-rate schedule in binary64 *)

(** [get_lr] as CPython evaluates it.  A Python [float] is an IEEE 754
    binary64 number, a [spec_float] under the operations of the Standard
    Library's executable specification at precision 53 and maximal exponent
    1024; an int operand of a float operation is first converted, which
    fails on an int beyond the float range. *)
Module Schedule64.

Definition prec : Z := 53.
Definition emax : Z := 1024.

Definition float : Type := spec_float.

Definition fadd : float -> float -> float := SFadd prec emax.
Definition fsub : float -> float -> float := SFsub prec emax.
Definition fmul : float -> float -> float := SFmul prec emax.
Definition fdiv : float -> float -> float := SFdiv prec emax.

(** The float literals [0.0], [0.5] and [1.0], and [math.pi]
    ([0x1.921fb54442d18p+1]). *)
Definition zero : float := S754_zero false.
Definition half : float := S754_finite false 4503599627370496 (-53).
Definition one : float := S754_finite false 4503599627370496 (-52).
Definition pi : float := S754_finite false 7074237752028440 (-51).

(** The float nearest to an int, ties to even. *)
Definition nearest (z : Z) : float := binary_normalize prec emax z 0 false.

(** The least magnitude without a nearest float: [2**1024 - 2**970], half
    way between the largest float and [2**1024], rounds to [2**1024]. *)
Definition float_limit : Z := 2 ^ 1024 - 2 ^ 970.

Definition fits (z : Z) : bool := Z.abs z <? float_limit.

(** The conversion of an int operand ([PyLong_AsDouble]):
    [OverflowError: int too large to convert to float]. *)
Definition of_int (z : Z) : result float :=
  if fits z then Return (nearest z) else Raise OverflowError.

(** [x * z] for a float [x] and an int [z]. *)
Definition mul_int (x : float) (z : Z) : result float :=
  rbind (of_int z) (fun y => Return (fmul x y)).

(** [x / z] for a float [x] and an int [z]: the int is converted, then
    tested against [0.0], which a converted int equals exactly when it is
    [0]. *)
Definition div_int (x : float) (z : Z) : result float :=
  rbind (of_int z) (fun y =>
  if z =? 0 then Raise ZeroDivisionError else Return (fdiv x y)).

(** An int as a float operand of unbounded precision. *)
Definition exact (z : Z) : float :=
  match z with
  | Z0 => S754_zero false
  | Zpos m => S754_finite false m 0
  | Zneg m => S754_finite true m 0
  end.

(** [a / b] on two ints: the float nearest to the exact quotient, from the
    ints themselves and not from their conversions;
    [OverflowError: integer division result too large for a float] when the
    quotient has no nearest float. *)
Definition int_truediv (a b : Z) : result float :=
  if b =? 0 then Raise ZeroDivisionError
  else if float_limit * Z.abs b <=? Z.abs a then Raise OverflowError
  else Return (fdiv (exact a) (exact b)).

(** The globals read by [get_lr]. *)
Record config : Type := Config {
  learning_rate : float;
  min_lr : float;
  warmup_iters : Z;
  lr_decay_iters : Z
}.

(** The quotient that line 261 rounds into [decay_ratio]. *)
Definition decay_quotient (c : config) (it : Z) : Q :=
  (inject_Z (it - warmup_iters c)
   / inject_Z (lr_decay_iters c - warmup_iters c))%Q.

(** [get_lr], given the platform's [math.cos].  The assertion of line 262
    compares the float [decay_ratio] with the ints [0] and [1].  Rounding
    to nearest is monotone and [0] and [1] are floats, so a quotient between
    [0] and [1] rounds to a float between them; the quotients of this
    branch, where [0 <= it - warmup_iters <= lr_decay_iters - warmup_iters],
    are all of this kind.  The test is made on the quotient.  [math.cos]
    itself raises on an infinity only, which [pi] times such a ratio is
    not: it is a total function here. *)
Definition get_lr (cos : float -> float) (c : config) (it : Z)
  : result float :=
  (* 1) linear warmup for warmup_iters steps *)
  if it <? warmup_iters c then
    rbind (mul_int (learning_rate c) it) (fun x =>
    div_int x (warmup_iters c))
  (* 2) if it > lr_decay_iters, return min learning rate *)
  else if it >? lr_decay_iters c then Return (min_lr c)
  (* 3) in between, use cosine decay down to min learning rate *)
  else
    rbind (int_truediv (it - warmup_iters c)
                       (lr_decay_iters c - warmup_iters c)) (fun decay_ratio =>
    if negb (Schedule.ratio_in_range (decay_quotient c it))
    then Raise AssertionError
    else
      let coeff := fmul half (fadd one (cos (fmul pi decay_ratio))) in
      Return (fadd (min_lr c)
                   (fmul coeff (fsub (learning_rate c) (min_lr c))))).

(** The float literals of the samples: [6e-4], [6e-5], [3e-4], [0.7],
    [0.01], [0.001] and [0.010000000000000002]. *)
Definition f_6e_4 : float := S754_finite false 5534023222112865 (-63).
Definition f_6e_5 : float := S754_finite false 8854437155380585 (-67).
Definition f_3e_4 : float := S754_finite false 5534023222112865 (-64).
Definition f_0_7 : float := S754_finite false 6305039478318694 (-53).
Definition f_0_01 : float := S754_finite false 5764607523034235 (-59).
Definition f_0_001 : float := S754_finite false 4611686018427388 (-62).
Definition f_0_01_up : float := S754_finite false 5764607523034236 (-59).

(** The configuration of the specification's end-to-end scenario (and the
    script's defaults). *)
Definition default : config := Config f_6e_4 f_6e_5 2000 600000.

(** The malformed bounds of [Schedule.inverted] and
    [Schedule.degenerate]. *)
Definition inverted : config := Config one zero 10 5.
Definition degenerate : config := Config one zero 10 10.

(** Well-formed bounds with the rates [0.01] and [0.001]. *)
Definition rounding : config := Config f_0_01 f_0_001 2000 600000.

(** A configuration whose warmup horizon is beyond the float range. *)
Definition beyond : config := Config f_6e_4 f_6e_5 (2 ^ 1024) (2 ^ 1025).

(** [pi * 0.5] and [math.cos] of it, [6.123233995736766e-17]
    ([0x1.1a62633145c07p-54]). *)
Definition half_pi : float := S754_finite false 7074237752028440 (-52).
Definition cos_half_pi : float := S754_finite false 4967757600021511 (-106).

(** A [math.cos] known at the three arguments the samples reach, [0.0],
    [pi * 0.5] and [pi * 1.0], with the correctly rounded values; it is NaN
    where it is not tabulated. *)
Definition cos_table (x : float) : float :=
  if SFeqb x zero then one
  else if SFeqb x half_pi then cos_half_pi
  else if SFeqb x pi then SFopp one
  else S754_nan.

End Schedule64.

(** ** The gradient-masking policy (lines 344-352) *)

Module Masking.

(** A member of the Hyperparameter Set: a scalar tensor with its value and
    its gradient slot ([None] while no gradient has been populated). *)
Record hyperparameter : Type := Hyper {
  data : R;
  grad : option R
}.

(** [p.grad = torch.zeros_like(p)] *)
Definition zero_grad_of (p : hyperparameter) : hyperparameter :=
  Hyper (data p) (Some 0%R).

(** Line 345:
    [parameters['alpha'].grad = torch.zeros_like(parameters['alpha'].grad)].
    The subscript raises [KeyError] on a missing name and [zeros_like]
    raises [TypeError] on a gradient that is [None]. *)
Definition zero_alpha (hs : gmap string hyperparameter)
  : result (gmap string hyperparameter) :=
  match hs !! "alpha" with
  | None => Raise (KeyError "alpha")
  | Some p =>
      match grad p with
      | None => Raise TypeError
      | Some _ => Return (<["alpha" := zero_grad_of p]> hs)
      end
  end.

(** The body of the [elif hyperadam] loop. *)
Definition hyperadam_mask (n : string) (p : hyperparameter) : hyperparameter :=
  if bool_decide (n ≠ "beta1" ∧ n ≠ "beta2") then zero_grad_of p else p.

(** Lines 345-352. *)
Definition mask_gradients (adam hyperadam : bool)
    (hs : gmap string hyperparameter) : result (gmap string hyperparameter) :=
  rbind (zero_alpha hs) (fun hs1 =>
    if adam then Return (zero_grad_of <$> hs1)
    else if hyperadam then
      Return (map_imap (fun n p => Some (hyperadam_mask n p)) hs1)
    else Return hs1).

(** A Hyperparameter Set with the members named on line 280 and the
    initial values of line 279, after a backward pass that left the gradient
    [g n] on the member named [n]. *)
Definition after_backward (g : string -> R) : gmap string hyperparameter :=
  list_to_map
    (map (fun nv : string * R => (nv.1, Hyper nv.2 (Some (g nv.1))))
       [("alpha", (1 / 1000)%R); ("beta1", (9 / 10)%R); ("beta2", (99 / 100)%R);
        ("beta3", 0%R); ("rho", 1%R); ("c", 1%R); ("gamma", 1%R)]).

End Masking.

(** ** The manual weight decay (lines 362-365) *)

Module Decay.

Record tensor : Type := Tensor {
  shape : list nat;
  entries : list R
}.

(** [t.dim()] *)
Definition dim (t : tensor) : nat := length (shape t).

(** A model parameter. *)
Record parameter : Type := Param {
  data : tensor;
  requires_grad : bool
}.

(** [s * t] for a scalar [s]. *)
Definition scale (s : R) (t : tensor) : tensor :=
  Tensor (shape t) (Rmult s <$> entries t).

(** [t - u] for two tensors of one shape. *)
Definition sub (t u : tensor) : tensor :=
  Tensor (shape t) (zip_with Rminus (entries t) (entries u)).

(** The body of the loop on line 363:
    [if p.data.dim() >= 2 and p.requires_grad:
         p.data.copy_(p.data - parameters['alpha']*weight_decay*p.data)]. *)
Definition decay_param (hs : gmap string Masking.hyperparameter)
    (weight_decay : R) (p : parameter) : result parameter :=
  if (2 <=? dim (data p))%nat && requires_grad p then
    match hs !! "alpha" with
    | None => Raise (KeyError "alpha")
    | Some a =>
        Return (Param
                  (sub (data p)
                       (scale (Masking.data a * weight_decay)%R (data p)))
                  (requires_grad p))
    end
  else Return p.

(** [for p in model.parameters(): ...] *)
Fixpoint decay_step (hs : gmap string Masking.hyperparameter)
    (weight_decay : R) (ps : list parameter) : result (list parameter) :=
  match ps with
  | [] => Return []
  | p :: ps' =>
      rbind (decay_param hs weight_decay p) (fun p' =>
      rbind (decay_step hs weight_decay ps') (fun ps'' =>
      Return (p' :: ps'')))
  end.

(** A small model: a trainable matrix, a trainable bias vector and a frozen
    matrix. *)
Definition matrix : parameter :=
  Param (Tensor [2; 2]%nat [1; 2; 3; 4]%R) true.
Definition bias : parameter :=
  Param (Tensor [2]%nat [5; 6]%R) true.
Definition frozen : parameter :=
  Param (Tensor [1; 1]%nat [1]%R) false.

(** A Hyperparameter Set whose learning-rate slot holds [a]. *)
Definition with_alpha (a : R) : gmap string Masking.hyperparameter :=
  {[ "alpha" := Masking.Hyper a (Some 0%R) ]}.

End Decay.

(** ** The program's control flow (lines 98-123 and 293-414) *)

Module Loop.

(** *** Losses *)

(** A loss as the script sees it: a float that may be infinite or NaN. *)
Inductive pyfloat : Type :=
| NaN
| Inf (negative : bool)
| Fin (q : Q).

(** [x < y] on floats: every comparison with NaN is false. *)
Definition lt (x y : pyfloat) : bool :=
  match x, y with
  | NaN, _ | _, NaN => false
  | Inf true, Inf true => false
  | Inf true, _ => true
  | _, Inf true => false
  | Inf false, _ => false
  | Fin _, Inf false => true
  | Fin a, Fin b => negb (Qle_bool b a)
  end.

(** [math.isnan(x)] *)
Definition isnan (x : pyfloat) : bool :=
  match x with
  | NaN => true
  | _ => false
  end.

(** The dictionary returned by [estimate_loss()]. *)
Record loss_pair : Type := Losses {
  train : pyfloat;
  val : pyfloat
}.

(** *** Configuration, process environment and collaborators *)

Record config : Type := Config {
  eval_interval : Z;
  log_interval : Z;
  max_iters : Z;
  gradient_accumulation_steps : Z;
  eval_only : bool;
  always_save_checkpoint : bool;
  wandb_log : bool;
  hypergrad : bool;
  decay_lr : bool;
  adam : bool;
  hyperadam : bool;
  schedule : Schedule.config
}.

(** The environment variables read on lines 100-105. *)
Record process : Type := Process {
  RANK : option Z;
  WORLD_SIZE : Z
}.

(** [ddp = int(os.environ.get('RANK', -1)) != -1] *)
Definition ddp (p : process) : bool :=
  match RANK p with
  | Some r => negb (r =? -1)
  | None => false
  end.

(** Lines 108 and 116. *)
Definition master_process (p : process) : bool :=
  if ddp p then
    match RANK p with
    | Some r => r =? 0
    | None => false
    end
  else true.

(** What the loop obtains from its collaborators: the result of the [k]-th
    call of [estimate_loss()], the value of
    [loss.item() * gradient_accumulation_steps] at an iteration, and, from
    the file system, whether the directory [out_dir + '/results'] exists
    when the summary file is opened.  The script creates [out_dir] (line
    123) and nothing below it. *)
Record world : Type := World {
  estimate_loss : nat -> loss_pair;
  batch_loss : Z -> pyfloat;
  results_dir : bool
}.

(** The three summary files of lines 404-413. *)
Inductive results_file : Type :=
| train_log_adam
| train_log_hyperadam
| train_log_mada.

Inductive site : Type := AtInterval | AtTermination.

Inductive log_line : Type :=
| LogEval (it : Z)        (* line 306 *)
| LogSaving               (* line 328 *)
| LogIter (it : Z)        (* lines 382-383 *)
| LogDevice               (* line 397 *)
| LogFinalIter (it : Z)   (* line 398 *)
| LogFinalHypers.         (* line 399 *)

(** The observable actions of a run. *)
Inductive event : Type :=
| EvMakedirs                                    (* line 123 *)
| EvGetBatch                                    (* lines 272 and 353 *)
| EvSetLr                                       (* lines 297-300 *)
| EvEstimateLoss (s : site) (l : loss_pair)     (* lines 305 and 393 *)
| EvPrint (l : log_line)
| EvWandbLog (it : Z)                           (* line 308 *)
| EvSaveCheckpoint (it : Z) (best : pyfloat)    (* line 329 *)
| EvForwardBackward (it : Z)                    (* lines 335-352 *)
| EvOptimizerStep (it : Z)                      (* lines 356-367 *)
| EvResultsWrite (f : results_file).            (* lines 406-413 *)

(** *** Training State *)

(** The module-level variables the loop reads and writes.  [losses] and
    [lossf] are unbound until their first assignment; [eval_calls] counts
    the calls of [estimate_loss()] made so far. *)
Record state : Type := State {
  iter_num : Z;
  local_iter_num : Z;
  best_val_loss : pyfloat;
  losses : option loss_pair;
  lossf : option pyfloat;
  eval_calls : nat
}.

Definition set_losses (l : loss_pair) (s : state) : state :=
  State (iter_num s) (local_iter_num s) (best_val_loss s) (Some l) (lossf s)
        (S (eval_calls s)).

Definition set_best_val_loss (b : pyfloat) (s : state) : state :=
  State (iter_num s) (local_iter_num s) b (losses s) (lossf s) (eval_calls s).

Definition set_lossf (x : pyfloat) (s : state) : state :=
  State (iter_num s) (local_iter_num s) (best_val_loss s) (losses s) (Some x)
        (eval_calls s).

Definition next_iter (s : state) : state :=
  State (iter_num s + 1) (local_iter_num s + 1) (best_val_loss s) (losses s)
        (lossf s) (eval_calls s).

(** *** The monad of loop code: state, events, [break] and exceptions *)

Inductive res (A : Type) : Type :=
| Val (a : A) (s : state)
| Brk (s : state)
| Exc (e : exn) (s : state).

Arguments Val {A} a s.
Arguments Brk {A} s.
Arguments Exc {A} e s.

Definition M (A : Type) : Type := state -> list event * res A.

#[export] Instance M_ret : MRet M := fun A a s => ([], Val a s).

#[export] Instance M_bind : MBind M := fun A B f m s =>
  match m s with
  | (t, Val a s') => let '(t', r) := f a s' in (t ++ t', r)
  | (t, Brk s') => (t, Brk s')
  | (t, Exc e s') => (t, Exc e s')
  end.

Definition get : M state := fun s => ([], Val s s).
Definition modify (f : state -> state) : M unit := fun s => ([], Val tt (f s)).
Definition emit (e : event) : M unit := fun s => ([e], Val tt s).
Definition break : M unit := fun s => ([], Brk s).
Definition raise {A} (e : exn) : M A := fun s => ([], Exc e s).

Definition lift {A} (r : result A) : M A :=
  match r with
  | Return a => mret a
  | Raise e => raise e
  end.

Definition when (b : bool) (m : M unit) : M unit :=
  if b then m else mret tt.

(** [a % b] on Python ints: the sign follows the divisor, as [Z.modulo]. *)
Definition py_mod (a b : Z) : result Z :=
  if b =? 0 then Raise ZeroDivisionError else Return (a mod b).

(** *** The blocks of the loop *)

(** Lines 305-329, the body of
    [if iter_num % eval_interval == 0 and master_process:]. *)
Definition eval_block (c : config) (w : world) : M unit :=
  s ← get;
  let l := estimate_loss w (eval_calls s) in
  modify (set_losses l);;
  emit (EvEstimateLoss AtInterval l);;
  emit (EvPrint (LogEval (iter_num s)));;
  when (wandb_log c) (emit (EvWandbLog (iter_num s)));;
  when (lt (val l) (best_val_loss s) || always_save_checkpoint c) (
    modify (set_best_val_loss (val l));;
    when (0 <? iter_num s) (
      emit (EvPrint LogSaving);;
      emit (EvSaveCheckpoint (iter_num s) (val l)))).

(** Lines 335-367: the meta-step.  Its gradient masking and weight decay are
    the subject of [Masking] and [Decay]; here it is three actions, the
    batch prefetch of line 353 in the middle. *)
Definition train_block : M unit :=
  s ← get;
  emit (EvForwardBackward (iter_num s));;
  emit EvGetBatch;;
  emit (EvOptimizerStep (iter_num s)).

(** Lines 378-385, the body of
    [if iter_num % log_interval == 0 and master_process:].  Line 384 reads
    [losses['train']]. *)
Definition log_block (w : world) : M unit :=
  s ← get;
  modify (set_lossf (batch_loss w (iter_num s)));;
  emit (EvPrint (LogIter (iter_num s)));;
  match losses s with
  | None => raise (NameError "losses")
  | Some _ => mret tt
  end.

(** The file chosen on lines 405-413. *)
Definition results_file_of (c : config) : results_file :=
  if adam c then train_log_adam
  else if hyperadam c then train_log_hyperadam
  else train_log_mada.

(** Lines 404-413: [with open(out_dir + '/results/...', 'a+') as f:
    np.savetxt(f, res, ...)].  Mode ['a+'] creates the file, never its
    directory: opening raises [FileNotFoundError] when [out_dir/results] does
    not exist. *)
Definition results_write (c : config) (w : world) : M unit :=
  if results_dir w then emit (EvResultsWrite (results_file_of c))
  else raise FileNotFoundError.

(** Lines 392-414: the termination conditions, tested after [iter_num] has
    been incremented. *)
Definition terminate_block (c : config) (w : world) : M unit :=
  s ← get;
  stop ← (if max_iters c <? iter_num s then mret true
          else match losses s with
               | None => raise (NameError "losses")
               | Some l => mret (isnan (train l))
               end);
  when stop (
    let l := estimate_loss w (eval_calls s) in
    modify (set_losses l);;
    emit (EvEstimateLoss AtTermination l);;
    emit (EvPrint LogDevice);;
    match lossf s with
    | None => raise (NameError "lossf")
    | Some _ => emit (EvPrint (LogFinalIter (iter_num s)))
    end;;
    emit (EvPrint LogFinalHypers);;
    when (hypergrad c) (results_write c w);;
    break).

(** Lines 296-300: [lr = get_lr(iter_num) if decay_lr else learning_rate],
    then the rate is written into the optimiser's parameter groups and into
    the ['alpha'] slot.  The loop depends on the schedule only through
    whether it returns. *)
Definition set_lr_block (c : config) : M unit :=
  s ← get;
  (if decay_lr c then lift (Schedule.get_lr (schedule c) (iter_num s));; mret tt
   else mret tt);;
  emit EvSetLr.

(** Line 304: [if iter_num % eval_interval == 0 and master_process:]. *)
Definition eval_guard (c : config) (p : process) (w : world) : M unit :=
  s ← get;
  r ← lift (py_mod (iter_num s) (eval_interval c));
  when ((r =? 0) && master_process p) (eval_block c w).

(** Lines 331-332: [if iter_num == 0 and eval_only: break]. *)
Definition eval_only_guard (c : config) : M unit :=
  s ← get;
  when ((iter_num s =? 0) && eval_only c) break.

(** Line 375: [if iter_num % log_interval == 0 and master_process:]. *)
Definition log_guard (c : config) (p : process) (w : world) : M unit :=
  s ← get;
  r ← lift (py_mod (iter_num s) (log_interval c));
  when ((r =? 0) && master_process p) (log_block w).

(** One pass through the body of [while True:] (lines 296-414). *)
Definition loop_body (c : config) (p : process) (w : world) : M unit :=
  set_lr_block c;;
  eval_guard c p w;;
  eval_only_guard c;;
  train_block;;
  log_guard c p w;;
  modify next_iter;;
  terminate_block c w.

(** The loop, for at most [fuel] passes: [Val tt s] is a loop still running
    in state [s], [Brk s] a loop left by [break], [Exc e s] a loop left by
    an exception. *)
Fixpoint run (fuel : nat) (c : config) (p : process) (w : world) (s : state)
  : list event * res unit :=
  match fuel with
  | O => ([], Val tt s)
  | S fuel' =>
      match loop_body c p w s with
      | (t, Val _ s') =>
          let '(t', r) := run fuel' c p w s' in (t ++ t', r)
      | (t, r) => (t, r)
      end
  end.

(** *** The program *)

(** The fields of a checkpoint that a resumed run restores into the
    Training State (lines 197-198). *)
Record checkpoint : Type := Checkpoint {
  ck_iter_num : Z;
  ck_best_val_loss : pyfloat
}.

(** Lines 152-153 and 197-198. *)
Definition initial_state (resume : option checkpoint) : state :=
  match resume with
  | None => State 0 0 (Fin 1000000000) None None 0
  | Some ck => State (ck_iter_num ck) 0 (ck_best_val_loss ck) None None 0
  end.

Inductive outcome : Type :=
| StartupError (e : exn)
| Loop (r : res unit).

(** Lines 100-113: the process-group set-up, as far as it can fail. *)
Definition ddp_setup (c : config) (p : process) : result unit :=
  if ddp p then
    rbind (py_mod (gradient_accumulation_steps c) (WORLD_SIZE p)) (fun r =>
    if r =? 0 then Return tt else Raise AssertionError)
  else Return tt.

(** The script from line 98 on: the assertion on the ablation flags, the
    process set-up, the first batch, the loop. *)
Definition main (c : config) (p : process) (w : world)
    (resume : option checkpoint) (fuel : nat) : list event * outcome :=
  if adam c && hyperadam c then ([], StartupError AssertionError)
  else
    match ddp_setup c p with
    | Raise e => ([], StartupError e)
    | Return _ =>
        let t0 := if master_process p then [EvMakedirs] else [] in
        let '(t, r) := run fuel c p w (initial_state resume) in
        (t0 ++ EvGetBatch :: t, Loop r)
    end.

(** *** Ghost observations on a trace *)

(** The validation losses measured by the periodic evaluations. *)
Fixpoint interval_vals (t : list event) : list pyfloat :=
  match t with
  | [] => []
  | EvEstimateLoss AtInterval l :: t' => val l :: interval_vals t'
  | _ :: t' => interval_vals t'
  end.

Definition is_checkpoint (e : event) : bool :=
  match e with
  | EvSaveCheckpoint _ _ => true
  | _ => false
  end.

Definition is_evaluation (e : event) : bool :=
  match e with
  | EvEstimateLoss _ _ => true
  | _ => false
  end.

Definition is_training (e : event) : bool :=
  match e with
  | EvForwardBackward _ | EvOptimizerStep _ | EvGetBatch => true
  | _ => false
  end.

(** What only the leader may do: the periodic evaluation, the checkpoint,
    the experiment tracker and the per-iteration log lines. *)
Definition is_leader_only (e : event) : bool :=
  match e with
  | EvMakedirs | EvWandbLog _ | EvSaveCheckpoint _ _
  | EvEstimateLoss AtInterval _
  | EvPrint (LogEval _) | EvPrint LogSaving | EvPrint (LogIter _) => true
  | _ => false
  end.

Definition state_of {A} (r : res A) : state :=
  match r with
  | Val _ s | Brk s | Exc _ s => s
  end.

(** The effect of one periodic evaluation on [best_val_loss] (lines
    315-316), as a function of the old value and the measured loss. *)
Definition update_best (always_save : bool) (b v : pyfloat) : pyfloat :=
  if lt v b || always_save then v else b.

(** [m] emits no event that satisfies [P]. *)
Definition silent {A} (P : event -> bool) (m : M A) : Prop :=
  forall s, List.filter P (m s).1 = [].

(** [best_val_loss] after [m] is the old value updated with the validation
    losses that the periodic evaluations of [m] measured, in order. *)
Definition tracks {A} (always_save : bool) (m : M A) : Prop :=
  forall s,
    best_val_loss (state_of (m s).2) =
    fold_left (update_best always_save) (interval_vals (m s).1)
              (best_val_loss s).

(** The events of lines 393-399: the last evaluation and the three final
    log lines, from a state [s]. *)
Definition final_report (w : world) (s : state) : list event :=
  [EvEstimateLoss AtTermination (estimate_loss w (eval_calls s));
   EvPrint LogDevice; EvPrint (LogFinalIter (iter_num s));
   EvPrint LogFinalHypers].

(** The events of lines 393-413 when the termination block runs to its
    [break]: the final report, then the summary row under [hypergrad]. *)
Definition final_events (c : config) (w : world) (s : state) : list event :=
  final_report w s
  ++ (if hypergrad c then [EvResultsWrite (results_file_of c)] else []).

(** The summary row can be appended: it is not asked for, or its directory
    exists. *)
Definition can_report (c : config) (w : world) : Prop :=
  hypergrad c = false \/ results_dir w = true.

(** *** Sample runs *)

Definition quiet (ei mi : Z) (always_save : bool) : config :=
  Config ei 1 mi 2 false always_save false true false false false
         Schedule.default.

(** The same, with the learning rate following the schedule. *)
Definition scheduled (ei mi : Z) (always_save : bool) : config :=
  Config ei 1 mi 2 false always_save false true true false false
         Schedule.default.

(** A configuration that selects both ablation modes. *)
Definition both_modes : config :=
  Config 2000 1 600000 1 false true false true true true true
         Schedule.default.

Definition single : process := Process None 1.
Definition worker : process := Process (Some 1) 2.

(** A collaborator whose evaluations return the given losses in turn, on a
    file system where [out_dir/results] exists. *)
Definition replay (ls : list loss_pair) : world :=
  World (fun k => nth k ls (Losses (Fin 1) (Fin 1))) (fun _ => Fin 1) true.

(** The same on a fresh [out_dir], without a [results] directory. *)
Definition replay_fresh (ls : list loss_pair) : world :=
  World (fun k => nth k ls (Losses (Fin 1) (Fin 1))) (fun _ => Fin 1) false.

End Loop.

(** ** One meta-step on the two tensor populations (lines 296-365) *)

Module MetaStep.
Import Masking.

(** Line 300: [parameters['alpha'].data = torch.tensor(lr)]. *)
Definition bind_lr (lr : R) (hs : gmap string hyperparameter)
  : result (gmap string hyperparameter) :=
  match hs !! "alpha" with
  | None => Raise (KeyError "alpha")
  | Some p => Return (<["alpha" := Hyper lr (grad p)]> hs)
  end.

(** Line 296: [lr = get_lr(iter_num) if decay_lr else learning_rate]. *)
Definition scheduled_lr (decay_lr : bool) (sc : Schedule.config) (it : Z)
  : result R :=
  if decay_lr then Schedule.get_lr sc it
  else Return (Schedule.learning_rate sc).

(** What the script itself does to the Hyperparameter Set and to the model
    parameters between reading the schedule and calling [mw.step()]: it
    binds the rate (line 300), lets the collaborators populate the
    gradients ([backward]: lines 335-344) and clip them ([clip]: lines
    356-359), masks in between (lines 345-352) and decays the weights
    (lines 363-365). *)
Definition before_step (decay_lr adam hyperadam : bool)
    (sc : Schedule.config) (weight_decay : R)
    (backward clip : gmap string hyperparameter -> gmap string hyperparameter)
    (it : Z) (hs : gmap string hyperparameter) (ps : list Decay.parameter)
  : result (gmap string hyperparameter * list Decay.parameter) :=
  rbind (scheduled_lr decay_lr sc it) (fun lr =>
  rbind (bind_lr lr hs) (fun hs1 =>
  rbind (mask_gradients adam hyperadam (backward hs1)) (fun hs2 =>
  let hs3 := clip hs2 in
  rbind (Decay.decay_step hs3 weight_decay ps) (fun ps' =>
  Return (hs3, ps'))))).

(** A backward pass that leaves the gradient 1 everywhere, and a clipping
    that halves every gradient. *)
Definition unit_backward (hs : gmap string hyperparameter)
  : gmap string hyperparameter :=
  (fun p => Hyper (data p) (Some 1%R)) <$> hs.

Definition halving_clip (hs : gmap string hyperparameter)
  : gmap string hyperparameter :=
  (fun p => Hyper (data p) ((fun g => g / 2)%R <$> grad p)) <$> hs.

End MetaStep.

(** ** Further observations on runs of the loop *)

Module LoopGhost.
Import Loop.

Definition is_step (e : event) : bool :=
  match e with
  | EvOptimizerStep _ => true
  | _ => false
  end.

Definition is_results (e : event) : bool :=
  match e with
  | EvResultsWrite _ => true
  | _ => false
  end.

(** [m] leaves the observation [g] of the Training State as it is, however
    it ends. *)
Definition keeps {A B} (g : state -> B) (m : M A) : Prop :=
  forall s, g (state_of (m s).2) = g s.

(** A pass that lets the loop go on has counted one iteration and is still
    within the budget. *)
Definition counts_one (c : config) {A} (m : M A) : Prop :=
  forall s t a s', m s = (t, Val a s') ->
    iter_num s' = iter_num s + 1 /\ iter_num s' <= max_iters c.

(** A loop left by [break] or by an exception. *)
Definition stopped (r : res unit) : Prop :=
  match r with
  | Val _ _ => False
  | _ => True
  end.

(** The state in which a pass of the leader can neither find [losses]
    unbound or NaN nor [lossf] unbound: each is bound already, or this
    iteration binds it. *)
Definition ready (c : config) (s : state) : Prop :=
  ((exists l, losses s = Some l /\ isnan (train l) = false) \/
   iter_num s mod eval_interval c = 0) /\
  (is_Some (lossf s) \/ iter_num s mod log_interval c = 0).

(** How the loop is left once the budget is spent, with the state it is left
    in. *)
Definition last_exit (c : config) (w : world) (s : state) : res unit :=
  if hypergrad c && negb (results_dir w) then Exc FileNotFoundError s
  else Brk s.

(** The configuration [c] with [eval_only] switched off. *)
Definition without_eval_only (c : config) : config :=
  Config (eval_interval c) (log_interval c) (max_iters c)
         (gradient_accumulation_steps c) false (always_save_checkpoint c)
         (wandb_log c) (hypergrad c) (decay_lr c) (adam c) (hyperadam c)
         (schedule c).

(** An eval-only configuration. *)
Definition eval_only_run : config :=
  Config 2000 1 600000 2 true true false true false false false
         Schedule.default.

End LoopGhost.

(** ** Resuming from a checkpoint (lines 181-198) *)

Module Resume.

(** [unwanted_prefix = '_orig_mod.'] *)
Definition unwanted_prefix : string := "_orig_mod.".

(** [k[n:]] on a string: the characters from position [n] on, none when
    the string is shorter. *)
Fixpoint drop_chars (n : nat) (k : string) : string :=
  match n, k with
  | O, _ => k
  | S n', String _ k' => drop_chars n' k'
  | S _, EmptyString => EmptyString
  end.

(** [k.startswith(unwanted_prefix)] *)
Definition prefixed (k : string) : bool := String.prefix unwanted_prefix k.

(** [k[len(unwanted_prefix):]] *)
Definition strip_key (k : string) : string :=
  drop_chars (String.length unwanted_prefix) k.

Section StateDict.
Context {V : Type}.

(** The body of the loop on lines 193-195:
    [if k.startswith(unwanted_prefix):
         state_dict[k[len(unwanted_prefix):]] = state_dict.pop(k)].
    The value bound by the [for] is not used; [pop] raises [KeyError] on a
    missing key. *)
Definition strip_step (d : gmap string V) (kv : string * V)
  : result (gmap string V) :=
  if prefixed kv.1 then
    match d !! kv.1 with
    | None => Raise (KeyError kv.1)
    | Some v => Return (<[strip_key kv.1 := v]> (delete kv.1 d))
    end
  else Return d.

(** [for k,v in list(state_dict.items()): ...]: the loop runs over a
    snapshot of the items while it updates the dictionary. *)
Fixpoint strip_loop (items : list (string * V)) (d : gmap string V)
  : result (gmap string V) :=
  match items with
  | [] => Return d
  | kv :: rest => rbind (strip_step d kv) (strip_loop rest)
  end.

(** Lines 192-195, on a dictionary given by its items in insertion order.
    The result is the content of the dictionary; [load_state_dict] looks
    the tensors up by name. *)
Definition strip_prefix (items : list (string * V)) : result (gmap string V) :=
  strip_loop items (list_to_map items).

(** The name under which an entry is meant to end up. *)
Definition rename (k : string) : string :=
  if prefixed k then strip_key k else k.

Definition rename_item (kv : string * V) : string * V := (rename kv.1, kv.2).

(** Lines 184-185:
    [for k in [...]: model_args[k] = checkpoint_model_args[k]]. *)
Fixpoint force_args (keys : list string) (ckpt args : gmap string V)
  : result (gmap string V) :=
  match keys with
  | [] => Return args
  | k :: ks =>
      match ckpt !! k with
      | None => Raise (KeyError k)
      | Some v => force_args ks ckpt (<[k := v]> args)
      end
  end.

End StateDict.

(** The architecture fields of line 184. *)
Definition arch_keys : list string :=
  ["n_layer"; "n_head"; "n_embd"; "block_size"; "bias"; "vocab_size"].

Definition resume_model_args {V} (ckpt args : gmap string V)
  : result (gmap string V) :=
  force_args arch_keys ckpt args.

(** The state dictionary of a compiled two-tensor model, and the model
    arguments of the script's defaults and of a smaller checkpoint. *)
Definition compiled_state_dict : list (string * Z) :=
  [("_orig_mod.wte.weight", 1); ("_orig_mod.lm_head.bias", 2)].

Definition requested_args : gmap string Z :=
  list_to_map [("n_layer", 12); ("n_head", 12); ("n_embd", 768);
               ("block_size", 1024); ("bias", 0); ("vocab_size", 50304);
               ("dropout", 1)].

Definition checkpoint_args : gmap string Z :=
  list_to_map [("n_layer", 6); ("n_head", 6); ("n_embd", 384);
               ("block_size", 256); ("bias", 0); ("vocab_size", 65);
               ("dropout", 0)].

End Resume.

(** ** The batch loader [get_batch] (lines 134-149) *)

Module Data.

(** [l[a:b]] for indices that are not negative. *)
Definition slice {A} (l : list A) (a b : nat) : list A :=
  take (b - a) (drop a l).

(** [torch.stack(rows)]: the rows must be there and have one length. *)
Definition stack {A} (rows : list (list A)) : option (list (list A)) :=
  match rows with
  | [] => None
  | r :: rs =>
      if forallb (fun r' => (length r' =? length r)%nat) rs then Some rows
      else None
  end.

(** [get_batch] on a corpus [data] of token ids, with [ix] the indices
    that [torch.randint(len(data) - block_size, (batch_size,))] has drawn;
    [randint] fails on an empty range.  The result is the pair [(x, y)]. *)
Definition get_batch (data : list Z) (block_size : nat) (ix : list nat)
  : option (list (list Z) * list (list Z)) :=
  if (length data <=? block_size)%nat then None
  else
    x ← stack ((fun i => slice data i (i + block_size)) <$> ix);
    y ← stack ((fun i => slice data (i + 1) (i + 1 + block_size)) <$> ix);
    Some (x, y).

End Data.

(** ** The evaluation sampler [estimate_loss] (lines 237-250) *)

Module Eval.
Import Loop.

(** Sum and division on floats, as far as the infinities and NaN go. *)
Definition pf_add (x y : pyfloat) : pyfloat :=
  match x, y with
  | NaN, _ | _, NaN => NaN
  | Inf a, Inf b => if Bool.eqb a b then Inf a else NaN
  | Inf a, Fin _ | Fin _, Inf a => Inf a
  | Fin a, Fin b => Fin (a + b)
  end.

(** Division by a count. *)
Definition pf_div (x : pyfloat) (n : nat) : pyfloat :=
  match x, n with
  | NaN, _ => NaN
  | Inf a, _ => Inf a
  | Fin q, O =>
      if Qeq_bool q 0 then NaN else Inf (negb (Qle_bool 0 q))
  | Fin q, S _ => Fin (q / inject_Z (Z.of_nat n))
  end.

(** [losses.mean()] of the tensor of the collected losses. *)
Definition mean (l : list pyfloat) : pyfloat :=
  pf_div (fold_left pf_add l (Fin 0)) (length l).

Inductive split : Type := Train | Validation.

(** [estimate_loss()]: for each split, the mean of the losses of
    [eval_iters] sampled batches; [batch_loss sp k] is the loss the model
    returns on the [k]-th batch sampled from [sp]. *)
Definition estimate_loss (eval_iters : nat) (batch_loss : split -> nat -> pyfloat)
  : loss_pair :=
  Losses (mean (batch_loss Train <$> seq 0 eval_iters))
         (mean (batch_loss Validation <$> seq 0 eval_iters)).

(** The collaborators of the loop when evaluation is [estimate_loss]:
    [model k] is the model at the [k]-th evaluation, [dir] tells whether
    [out_dir/results] exists. *)
Definition sampling_world (eval_iters : nat)
    (model : nat -> split -> nat -> pyfloat) (step_loss : Z -> pyfloat)
    (dir : bool) : world :=
  World (fun k => estimate_loss eval_iters (model k)) step_loss dir.

End Eval.

(** ** Gradient accumulation under data parallelism (lines 100-120) *)

Module Startup.
Import Loop.

(** [ddp_world_size] *)
Definition world_size (p : process) : Z :=
  if ddp p then WORLD_SIZE p else 1.

(** [gradient_accumulation_steps] after lines 112-113:
    [assert gradient_accumulation_steps % ddp_world_size == 0] and
    [gradient_accumulation_steps //= ddp_world_size]. *)
Definition accumulation_steps (c : config) (p : process) : result Z :=
  if ddp p then
    rbind (py_mod (gradient_accumulation_steps c) (WORLD_SIZE p)) (fun r =>
    if r =? 0 then Return (gradient_accumulation_steps c / WORLD_SIZE p)
    else Raise AssertionError)
  else Return (gradient_accumulation_steps c).

(** Line 119:
    [tokens_per_iter = gradient_accumulation_steps * ddp_world_size
                       * batch_size * block_size]. *)
Definition tokens_per_iter (c : config) (p : process)
    (batch_size block_size : Z) : result Z :=
  rbind (accumulation_steps c p) (fun g =>
  Return (g * world_size p * batch_size * block_size)).

End Startup.

(** * Properties *)

(** ** The learning-rate schedule *)

Module ScheduleFacts.
Import Schedule.

(** Bounds on the fields of a concrete configuration. *)
Ltac bounds :=
  cbv [default inverted degenerate warmup_iters lr_decay_iters]; lia.

Lemma Q2R_inject_Z (z : Z) : Q2R (inject_Z z) = IZR z.
Proof. unfold Q2R, inject_Z; simpl. lra. Qed.

Lemma inject_Z_nonzero (z : Z) : z <> 0 -> ~ (inject_Z z == 0)%Q.
Proof. unfold Qeq, inject_Z; simpl. lia. Qed.

Lemma Q2R_decay_ratio (c : config) (it : Z) :
  warmup_iters c <> lr_decay_iters c ->
  Q2R (decay_ratio c it) =
  (IZR (it - warmup_iters c) / IZR (lr_decay_iters c - warmup_iters c))%R.
Proof.
  intros Hne. unfold decay_ratio.
  rewrite Q2R_div by (apply inject_Z_nonzero; lia).
  now rewrite !Q2R_inject_Z.
Qed.

Lemma decay_ratio_bounds (c : config) (it : Z) :
  warmup_iters c < lr_decay_iters c ->
  warmup_iters c <= it <= lr_decay_iters c ->
  (0 <= decay_ratio c it <= 1)%Q.
Proof.
  intros Hlt [Hlo Hhi]. unfold decay_ratio.
  set (d := lr_decay_iters c - warmup_iters c).
  set (n := it - warmup_iters c).
  assert (Hd : (0 < inject_Z d)%Q).
  { unfold Qlt, inject_Z; simpl. subst d. lia. }
  split.
  - apply Qle_shift_div_l; [exact Hd|].
    unfold Qle, inject_Z, Qmult; simpl. subst n. lia.
  - apply Qle_shift_div_r; [exact Hd|].
    unfold Qle, inject_Z, Qmult; simpl. subst n d. lia.
Qed.

Lemma ratio_in_range_true (c : config) (it : Z) :
  warmup_iters c < lr_decay_iters c ->
  warmup_iters c <= it <= lr_decay_iters c ->
  ratio_in_range (decay_ratio c it) = true.
Proof.
  intros Hlt Hit. destruct (decay_ratio_bounds c it Hlt Hit) as [H0 H1].
  unfold ratio_in_range. apply andb_true_iff; split; now apply Qle_bool_iff.
Qed.

(** The cosine branch, as an equation. *)
Lemma get_lr_middle (c : config) (it : Z) :
  warmup_iters c < lr_decay_iters c ->
  warmup_iters c <= it <= lr_decay_iters c ->
  get_lr c it =
  Return (min_lr c
          + 0.5 * (1 + cos (PI * (IZR (it - warmup_iters c)
                                  / IZR (lr_decay_iters c - warmup_iters c))))
            * (learning_rate c - min_lr c))%R.
Proof.
  intros Hlt Hit. unfold get_lr.
  destruct (Z.ltb_spec it (warmup_iters c)); [lia|].
  destruct (Z.gtb_spec it (lr_decay_iters c)); [lia|].
  destruct (Z.eqb_spec (lr_decay_iters c - warmup_iters c) 0); [lia|].
  rewrite ratio_in_range_true by assumption. simpl.
  rewrite Q2R_decay_ratio by lia. f_equal. lra.
Qed.


(** The warmup branch, as an equation. *)
Lemma get_lr_warmup (c : config) (it : Z) :
  0 <= it < warmup_iters c ->
  get_lr c it = Return (learning_rate c * IZR it / IZR (warmup_iters c))%R.
Proof.
  intros [H0 Hlt]. unfold get_lr.
  destruct (Z.ltb_spec it (warmup_iters c)); [|lia].
  destruct (Z.eqb_spec (warmup_iters c) 0); [lia|reflexivity].
Qed.

(** Past the decay horizon, once the warmup is over. *)
Lemma get_lr_floor (c : config) (it : Z) :
  warmup_iters c <= it -> lr_decay_iters c < it ->
  get_lr c it = Return (min_lr c).
Proof.
  intros Hw Hd. unfold get_lr.
  destruct (Z.ltb_spec it (warmup_iters c)); [lia|].
  destruct (Z.gtb_spec it (lr_decay_iters c)); [reflexivity|lia].
Qed.

(** Over exact arithmetic the cosine branch starts at [learning_rate]: the
    schedule is continuous where the warmup ends. *)
Lemma get_lr_exact_start (c : config) :
  warmup_iters c < lr_decay_iters c ->
  get_lr c (warmup_iters c) = Return (learning_rate c).
Proof.
  intros Hwf. rewrite get_lr_middle by lia. f_equal.
  rewrite Z.sub_diag. unfold Rdiv. rewrite Rmult_0_l, Rmult_0_r, cos_0. lra.
Qed.

(** C9: on well-formed bounds [warmup_iters < lr_decay_iters], for every
    non-negative step the assertion [0 <= decay_ratio <= 1] holds whenever
    the cosine branch runs, so [get_lr] never raises [AssertionError]; it
    returns a rate. *)
Theorem get_lr_assertion_safe (c : config) (it : Z) :
  warmup_iters c < lr_decay_iters c ->
  0 <= it ->
  get_lr c it <> Raise AssertionError /\
  (exists r, get_lr c it = Return r) /\
  (warmup_iters c <= it <= lr_decay_iters c ->
   ratio_in_range (decay_ratio c it) = true /\
   (0 <= decay_ratio c it <= 1)%Q).
Proof.
  intros Hwf H0.
  assert (Hret : exists r, get_lr c it = Return r).
  { destruct (Z.lt_ge_cases it (warmup_iters c)).
    - eexists. apply get_lr_warmup; lia.
    - destruct (Z.lt_ge_cases (lr_decay_iters c) it).
      + eexists. now apply get_lr_floor.
      + eexists. apply get_lr_middle; lia. }
  split; [|split].
  - destruct Hret as [r ->]. discriminate.
  - exact Hret.
  - intros Hmid. split.
    + now apply ratio_in_range_true.
    + now apply decay_ratio_bounds.
Qed.

Lemma get_lr_assertion_safe_witness :
  get_lr default 301000 <> Raise AssertionError /\
  (exists r, get_lr default 301000 = Return r) /\
  (warmup_iters default <= 301000 <= lr_decay_iters default ->
   ratio_in_range (decay_ratio default 301000) = true /\
   (0 <= decay_ratio default 301000 <= 1)%Q).
Proof.
  apply (get_lr_assertion_safe default 301000); bounds.
Defined.

End ScheduleFacts.

(** ** The learning-rate schedule in binary64 *)

Module Schedule64Facts.
Import Schedule64.

Ltac bounds64 :=
  cbv [default inverted degenerate rounding beyond warmup_iters
       lr_decay_iters]; lia.

(** The limit of the conversion is where rounding leaves the floats: the
    int just below it converts to the largest float, the limit itself
    rounds to infinity. *)
Lemma float_limit_rounds :
  nearest (float_limit - 1) = S754_finite false 9007199254740991 971 /\
  nearest float_limit = S754_infinity false /\
  nearest (- float_limit) = S754_infinity true /\
  fdiv (exact (float_limit - 1)) (exact 1) =
    S754_finite false 9007199254740991 971 /\
  fdiv (exact float_limit) (exact 1) = S754_infinity false.
Proof. split_and!; vm_compute; reflexivity. Qed.

(** Small ints convert exactly; [0] is the only int that converts to a
    zero among them. *)
Lemma nearest_small :
  nearest 0 = zero /\ nearest 1 = one /\ nearest (-1) = SFopp one /\
  nearest 2000 = S754_finite false 8796093022208000 (-42).
Proof. split_and!; vm_compute; reflexivity. Qed.

Lemma float_limit_gt_1 : 1 < float_limit.
Proof. reflexivity. Qed.

Lemma fits_below (a b : Z) :
  0 <= a <= b -> fits b = true -> fits a = true.
Proof.
  unfold fits. intros Hab Hb. apply Z.ltb_lt in Hb. apply Z.ltb_lt. lia.
Qed.

Lemma decay_quotient_in_range (c : config) (it : Z) :
  warmup_iters c < lr_decay_iters c ->
  warmup_iters c <= it <= lr_decay_iters c ->
  Schedule.ratio_in_range (decay_quotient c it) = true.
Proof.
  intros Hwf Hit.
  exact (ScheduleFacts.ratio_in_range_true
           (Schedule.Config 0 0 (warmup_iters c) (lr_decay_iters c)) it
           Hwf Hit).
Qed.

(** The true division of the cosine branch neither divides by zero nor
    overflows on well-formed bounds. *)
Lemma int_truediv_ratio (n d : Z) :
  0 <= n <= d -> 0 < d ->
  int_truediv n d = Return (fdiv (exact n) (exact d)).
Proof.
  intros Hn Hd. unfold int_truediv.
  destruct (Z.eqb_spec d 0); [lia|].
  pose proof float_limit_gt_1 as HL.
  destruct (Z.leb_spec (float_limit * Z.abs d) (Z.abs n)) as [H|H];
    [|reflexivity].
  exfalso. rewrite !Z.abs_eq in H by lia.
  assert (1 * d < float_limit * d) by (apply Z.mul_lt_mono_pos_r; lia).
  lia.
Qed.

(** The warmup branch, as an equation. *)
Lemma get_lr64_warmup cos (c : config) (it : Z) :
  0 <= it < warmup_iters c -> fits (warmup_iters c) = true ->
  get_lr cos c it =
  Return (fdiv (fmul (learning_rate c) (nearest it))
               (nearest (warmup_iters c))).
Proof.
  intros [H0 Hlt] Hw. unfold get_lr, mul_int, div_int, of_int.
  destruct (Z.ltb_spec it (warmup_iters c)); [|lia].
  rewrite (fits_below it (warmup_iters c)) by (auto; lia).
  simpl. rewrite Hw. simpl.
  destruct (Z.eqb_spec (warmup_iters c) 0); [lia|reflexivity].
Qed.

(** The warmup branch beyond the float range. *)
Lemma get_lr64_warmup_overflow cos (c : config) (it : Z) :
  it < warmup_iters c -> fits (warmup_iters c) = false ->
  get_lr cos c it = Raise OverflowError.
Proof.
  intros Hlt Hw. unfold get_lr, mul_int, div_int, of_int.
  destruct (Z.ltb_spec it (warmup_iters c)); [|lia].
  destruct (fits it); simpl; now rewrite ?Hw.
Qed.

(** Past the decay horizon, once the warmup is over. *)
Lemma get_lr64_floor cos (c : config) (it : Z) :
  warmup_iters c <= it -> lr_decay_iters c < it ->
  get_lr cos c it = Return (min_lr c).
Proof.
  intros Hw Hd. unfold get_lr.
  destruct (Z.ltb_spec it (warmup_iters c)); [lia|].
  destruct (Z.gtb_spec it (lr_decay_iters c)); [reflexivity|lia].
Qed.

(** The cosine branch, as an equation. *)
Lemma get_lr64_middle cos (c : config) (it : Z) :
  warmup_iters c < lr_decay_iters c ->
  warmup_iters c <= it <= lr_decay_iters c ->
  get_lr cos c it =
  Return (fadd (min_lr c)
            (fmul (fmul half
                     (fadd one
                        (cos (fmul pi
                                (fdiv (exact (it - warmup_iters c))
                                      (exact (lr_decay_iters c
                                              - warmup_iters c)))))))
                  (fsub (learning_rate c) (min_lr c)))).
Proof.
  intros Hwf Hit. unfold get_lr.
  destruct (Z.ltb_spec it (warmup_iters c)); [lia|].
  destruct (Z.gtb_spec it (lr_decay_iters c)); [lia|].
  rewrite int_truediv_ratio by lia. simpl rbind.
  now rewrite decay_quotient_in_range.
Qed.

(** [get_lr] by cases on the ints alone: which branch runs, and which
    exception, if any, ends it. *)
Lemma get_lr64_cases cos (c : config) (it : Z) :
  get_lr cos c it =
  if it <? warmup_iters c then
    if negb (fits it && fits (warmup_iters c)) then Raise OverflowError
    else if warmup_iters c =? 0 then Raise ZeroDivisionError
    else Return (fdiv (fmul (learning_rate c) (nearest it))
                      (nearest (warmup_iters c)))
  else if it >? lr_decay_iters c then Return (min_lr c)
  else if lr_decay_iters c - warmup_iters c =? 0
  then Raise ZeroDivisionError
  else
    Return (fadd (min_lr c)
              (fmul (fmul half
                       (fadd one
                          (cos (fmul pi
                                  (fdiv (exact (it - warmup_iters c))
                                        (exact (lr_decay_iters c
                                                - warmup_iters c)))))))
                    (fsub (learning_rate c) (min_lr c)))).
Proof.
  destruct (Z.ltb_spec it (warmup_iters c)) as [Hlt|Hge].
  - unfold get_lr, mul_int, div_int, of_int.
    destruct (Z.ltb_spec it (warmup_iters c)); [|lia].
    destruct (fits it), (fits (warmup_iters c)); reflexivity.
  - destruct (Z.gtb_spec it (lr_decay_iters c)) as [Hgt|Hle].
    + apply get_lr64_floor; lia.
    + destruct (Z.eqb_spec (lr_decay_iters c - warmup_iters c) 0) as [E|E].
      * unfold get_lr, int_truediv.
        destruct (Z.ltb_spec it (warmup_iters c)); [lia|].
        destruct (Z.gtb_spec it (lr_decay_iters c)); [lia|].
        now rewrite E.
      * apply get_lr64_middle; lia.
Qed.

(** C2 (as amended): on well-formed bounds [warmup_iters < lr_decay_iters]
    and non-negative steps, with a [math.cos] that returns [1.0] at [0.0]
    and [6.123233995736766e-17] at [pi * 0.5], [get_lr] is the stated
    piecewise function in float arithmetic: below [warmup_iters] the ramp
    [learning_rate * it / warmup_iters] (an [OverflowError] if
    [warmup_iters] is too large for a float); at [warmup_iters] the value
    [min_lr + 1.0 * (learning_rate - min_lr)]; above [lr_decay_iters] the
    value [min_lr]; in between the cosine interpolation; and on the
    scenario's configuration [get_lr 1000 = 3e-4],
    [get_lr 2000 = 6e-4], [get_lr 600001 = 6e-5] and
    [get_lr 301000 = min_lr + 0.5 * (learning_rate - min_lr)]. *)
Theorem get_lr_piecewise (cos : float -> float) (c : config) :
  warmup_iters c < lr_decay_iters c ->
  cos zero = one ->
  cos half_pi = cos_half_pi ->
  (forall it, 0 <= it < warmup_iters c ->
     get_lr cos c it =
     if fits (warmup_iters c)
     then Return (fdiv (fmul (learning_rate c) (nearest it))
                       (nearest (warmup_iters c)))
     else Raise OverflowError) /\
  get_lr cos c (warmup_iters c) =
    Return (fadd (min_lr c) (fmul one (fsub (learning_rate c) (min_lr c)))) /\
  (forall it, lr_decay_iters c < it -> get_lr cos c it = Return (min_lr c)) /\
  (forall it, warmup_iters c <= it <= lr_decay_iters c ->
     get_lr cos c it =
     Return (fadd (min_lr c)
               (fmul (fmul half
                        (fadd one
                           (cos (fmul pi
                                   (fdiv (exact (it - warmup_iters c))
                                         (exact (lr_decay_iters c
                                                 - warmup_iters c)))))))
                     (fsub (learning_rate c) (min_lr c))))) /\
  get_lr cos default 1000 = Return f_3e_4 /\
  get_lr cos default 2000 = Return f_6e_4 /\
  get_lr cos default 600001 = Return f_6e_5 /\
  get_lr cos default 301000 =
    Return (fadd f_6e_5 (fmul half (fsub f_6e_4 f_6e_5))).
Proof.
  intros Hwf Hc0 Hc1.
  assert (Hstart : forall c', warmup_iters c' < lr_decay_iters c' ->
    get_lr cos c' (warmup_iters c') =
    Return (fadd (min_lr c')
                 (fmul one (fsub (learning_rate c') (min_lr c'))))).
  { intros c' Hwf'. rewrite get_lr64_middle by lia. rewrite Z.sub_diag.
    destruct (lr_decay_iters c' - warmup_iters c') as [|d|d] eqn:E; try lia.
    change (fmul pi (fdiv (exact 0) (exact (Z.pos d)))) with zero.
    rewrite Hc0.
    change (fmul half (fadd one one)) with one. reflexivity. }
  split_and!.
  - intros it Hit. destruct (fits (warmup_iters c)) eqn:Hw.
    + now apply get_lr64_warmup.
    + apply get_lr64_warmup_overflow; [lia|exact Hw].
  - now apply Hstart.
  - intros it Hit. apply get_lr64_floor; lia.
  - intros it Hit. now apply get_lr64_middle.
  - rewrite get_lr64_warmup by (try reflexivity; bounds64).
    vm_compute. reflexivity.
  - etransitivity; [exact (Hstart default ltac:(bounds64))|].
    vm_compute. reflexivity.
  - rewrite get_lr64_floor by bounds64. reflexivity.
  - rewrite get_lr64_middle by bounds64.
    assert (E : fmul pi
                  (fdiv (exact (301000 - warmup_iters default))
                        (exact (lr_decay_iters default
                                - warmup_iters default))) = half_pi)
      by (vm_compute; reflexivity).
    rewrite E, Hc1. vm_compute. reflexivity.
Qed.

Lemma get_lr_piecewise_witness :
  get_lr cos_table default 0 = Return zero /\
  get_lr cos_table default 2000 = Return f_6e_4 /\
  get_lr cos_table default 700000 = Return f_6e_5 /\
  get_lr cos_table beyond 5 = Raise OverflowError.
Proof.
  destruct (get_lr_piecewise cos_table default) as (Hw & Hb & Hf & _);
    [bounds64|reflexivity|reflexivity|].
  destruct (get_lr_piecewise cos_table beyond) as (Hw' & _);
    [bounds64|reflexivity|reflexivity|].
  split_and!.
  - rewrite (Hw 0) by bounds64. vm_compute. reflexivity.
  - etransitivity; [exact Hb|]. vm_compute. reflexivity.
  - apply (Hf 700000). bounds64.
  - rewrite (Hw' 5) by bounds64. reflexivity.
Defined.

(** C2 (as stated) fails on malformed bounds, and by rounding.  When the
    warmup ends after the decay horizon, a step above [lr_decay_iters] but
    below [warmup_iters] is still on the ramp and [get_lr warmup_iters] is
    [min_lr]; when the two horizons coincide, [get_lr warmup_iters] raises
    [ZeroDivisionError].  On well-formed bounds with the rates [0.01] and
    [0.001], [get_lr warmup_iters] is [0.010000000000000002], one unit in
    the last place above [learning_rate]. *)
Lemma get_lr_malformed_bounds :
  (lr_decay_iters inverted < 7 /\
   get_lr cos_table inverted 7 = Return f_0_7 /\
   get_lr cos_table inverted 7 <> Return (min_lr inverted)) /\
  (get_lr cos_table inverted (warmup_iters inverted)
     = Return (min_lr inverted) /\
   get_lr cos_table inverted (warmup_iters inverted)
     <> Return (learning_rate inverted)) /\
  get_lr cos_table degenerate (warmup_iters degenerate)
    = Raise ZeroDivisionError /\
  (warmup_iters rounding < lr_decay_iters rounding /\
   cos_table zero = one /\
   get_lr cos_table rounding (warmup_iters rounding) = Return f_0_01_up /\
   get_lr cos_table rounding (warmup_iters rounding)
     <> Return (learning_rate rounding)).
Proof.
  split_and!; try (vm_compute; reflexivity); vm_compute; discriminate.
Qed.

(** The exceptions of [get_lr], whatever the bounds, the step, the rates
    and [math.cos]: [OverflowError] exactly in the warmup branch when the
    step or [warmup_iters] is too large to convert to a float,
    [ZeroDivisionError] exactly on a negative step that converts with
    [warmup_iters = 0] and at the single step of coinciding horizons, and
    nothing else: the assertion of line 262 cannot fail and the true
    division of the cosine branch cannot overflow. *)
Theorem get_lr_exceptions (cos : float -> float) (c : config) (it : Z) :
  (get_lr cos c it = Raise OverflowError <->
   it < warmup_iters c /\
   (fits it = false \/ fits (warmup_iters c) = false)) /\
  (get_lr cos c it = Raise ZeroDivisionError <->
   (it < 0 /\ fits it = true /\ warmup_iters c = 0) \/
   (it = warmup_iters c /\ warmup_iters c = lr_decay_iters c)) /\
  (forall e, get_lr cos c it = Raise e ->
     e = OverflowError \/ e = ZeroDivisionError).
Proof.
  rewrite get_lr64_cases.
  destruct (Z.ltb_spec it (warmup_iters c)) as [Hlt|Hge].
  - assert (Hzero : warmup_iters c = 0 -> fits (warmup_iters c) = true)
      by (now intros ->).
    destruct (fits it) eqn:Hi; [destruct (fits (warmup_iters c)) eqn:Hw|];
      cbn [andb negb].
    + destruct (Z.eqb_spec (warmup_iters c) 0) as [E|E].
      * split_and!.
        -- split; [discriminate|intros (_ & [?|?]); discriminate].
        -- split; [intros _; left; split_and!; [lia|reflexivity|exact E]
                  |reflexivity].
        -- intros e [= <-]. now right.
      * split_and!.
        -- split; [discriminate|intros (_ & [?|?]); discriminate].
        -- split; [discriminate|intros [(? & _ & ?)|[? _]]; lia].
        -- discriminate.
    + split_and!.
      * split; [intros _; split; [exact Hlt|now right]|reflexivity].
      * split; [discriminate|].
        intros [(_ & _ & E)|[? _]]; [|lia].
        apply Hzero in E. discriminate.
      * intros e [= <-]. now left.
    + split_and!.
      * split; [intros _; split; [exact Hlt|now left]|reflexivity].
      * split; [discriminate|intros [(_ & ? & _)|[? _]]; [discriminate|lia]].
      * intros e [= <-]. now left.
  - destruct (Z.gtb_spec it (lr_decay_iters c)) as [Hgt|Hle].
    + split_and!.
      * split; [discriminate|intros [? _]; lia].
      * split; [discriminate|intros [(? & _ & ?)|[? ?]]; lia].
      * discriminate.
    + destruct (Z.eqb_spec (lr_decay_iters c - warmup_iters c) 0) as [E|E].
      * split_and!.
        -- split; [discriminate|intros [? _]; lia].
        -- split; [intros _; right; lia|reflexivity].
        -- intros e [= <-]. now right.
      * split_and!.
        -- split; [discriminate|intros [? _]; lia].
        -- split; [discriminate|intros [(? & _ & ?)|[? ?]]; lia].
        -- discriminate.
Qed.

(** The schedule over exact arithmetic and the schedule in binary64 run
    the same branch: on bounds they share, and unless the warmup branch
    meets an int beyond the float range, one raises an exception exactly
    when the other raises the same, so one returns exactly when the other
    does. *)
Theorem exact_schedule_control cos (c : config) (e : Schedule.config)
    (it : Z) :
  Schedule.warmup_iters e = warmup_iters c ->
  Schedule.lr_decay_iters e = lr_decay_iters c ->
  (it < warmup_iters c -> fits it = true /\ fits (warmup_iters c) = true) ->
  (forall x, get_lr cos c it = Raise x <-> Schedule.get_lr e it = Raise x) /\
  ((exists r, get_lr cos c it = Return r) <->
   (exists r, Schedule.get_lr e it = Return r)).
Proof.
  intros Hw Hd Hfit. rewrite get_lr64_cases. unfold Schedule.get_lr.
  rewrite Hw, Hd.
  destruct (Z.ltb_spec it (warmup_iters c)) as [Hlt|Hge].
  - destruct (Hfit Hlt) as [-> ->]. cbn [andb negb].
    destruct (warmup_iters c =? 0); split;
      try (intros x; split; intros H; inversion H; reflexivity);
      split; intros [r H]; try discriminate; eauto.
  - destruct (Z.gtb_spec it (lr_decay_iters c)) as [Hgt|Hle];
      [split; [intros x; split; discriminate|split; eauto]|].
    destruct (Z.eqb_spec (lr_decay_iters c - warmup_iters c) 0) as [E|E].
    + split; [intros x; split; intros H; inversion H; reflexivity|].
      split; intros [r H]; discriminate.
    + assert (Hr : Schedule.ratio_in_range (Schedule.decay_ratio e it)
                   = true).
      { apply ScheduleFacts.ratio_in_range_true; lia. }
      rewrite Hr. cbn [negb].
      split; [intros x; split; discriminate|split; eauto].
Qed.

Lemma exact_schedule_control_witness :
  (exists r, get_lr cos_table default 1000 = Return r) <->
  (exists r, Schedule.get_lr Schedule.default 1000 = Return r).
Proof.
  apply (exact_schedule_control cos_table default Schedule.default 1000);
    [reflexivity|reflexivity|].
  intros _. split; reflexivity.
Defined.

(** Beyond the float range the two part: the exact schedule returns a rate
    where the code raises [OverflowError]. *)
Lemma exact_schedule_beyond :
  get_lr cos_table beyond 5 = Raise OverflowError /\
  (exists r,
     Schedule.get_lr (Schedule.Config 1%R 0%R (2 ^ 1024) (2 ^ 1025)) 5
     = Return r).
Proof.
  split; [reflexivity|].
  eexists. apply ScheduleFacts.get_lr_warmup. split; [lia|reflexivity].
Qed.

End Schedule64Facts.

(** ** The gradient-masking policy *)

Module MaskingFacts.
Import Masking.

Lemma zero_alpha_Return (hs : gmap string hyperparameter) pa g :
  hs !! "alpha" = Some pa -> grad pa = Some g ->
  zero_alpha hs = Return (<["alpha" := zero_grad_of pa]> hs).
Proof. intros Ha Hg. unfold zero_alpha. now rewrite Ha, Hg. Qed.

Lemma hyperadam_mask_other n p :
  n <> "beta1" -> n <> "beta2" -> hyperadam_mask n p = zero_grad_of p.
Proof.
  intros H1 H2. unfold hyperadam_mask.
  rewrite bool_decide_eq_true_2; [reflexivity|]. now split.
Qed.

Lemma hyperadam_mask_beta n p :
  n = "beta1" \/ n = "beta2" -> hyperadam_mask n p = p.
Proof.
  intros H. unfold hyperadam_mask.
  rewrite bool_decide_eq_false_2; [reflexivity|].
  intros [H1 H2]. destruct H; contradiction.
Qed.

(** The policy never touches a value, whatever the mode. *)
Lemma hyperadam_mask_data n p : data (hyperadam_mask n p) = data p.
Proof. unfold hyperadam_mask. now destruct (bool_decide _). Qed.

(** C1: after the backward pass has populated the learning rate's gradient,
    the masking policy returns a Hyperparameter Set in which the gradient of
    ['alpha'] is zero in every mode; in mode [adam] every gradient is zero;
    in mode [hyperadam] every gradient except those of ['beta1'] and
    ['beta2'] is zero and these two members are left as they were; in the
    full mode every member other than ['alpha'] is left as it was.  No mode
    changes a value. *)
Theorem mask_gradients_post (adam hyperadam : bool)
    (hs : gmap string hyperparameter) (pa : hyperparameter) (g : R) :
  hs !! "alpha" = Some pa -> grad pa = Some g ->
  exists hs',
    mask_gradients adam hyperadam hs = Return hs' /\
    (exists pa', hs' !! "alpha" = Some pa' /\ grad pa' = Some 0%R) /\
    (adam = true ->
     forall n p, hs' !! n = Some p -> grad p = Some 0%R) /\
    (adam = false -> hyperadam = true ->
     (forall n p, hs' !! n = Some p ->
        n <> "beta1" -> n <> "beta2" -> grad p = Some 0%R) /\
     hs' !! "beta1" = hs !! "beta1" /\ hs' !! "beta2" = hs !! "beta2") /\
    (adam = false -> hyperadam = false ->
     forall n, n <> "alpha" -> hs' !! n = hs !! n) /\
    (forall n, data <$> hs' !! n = data <$> hs !! n).
Proof.
  intros Ha Hg. unfold mask_gradients.
  rewrite (zero_alpha_Return hs pa g Ha Hg). simpl.
  set (hs1 := <["alpha" := zero_grad_of pa]> hs).
  assert (H1 : hs1 !! "alpha" = Some (zero_grad_of pa))
    by apply lookup_insert_eq.
  assert (Hne : forall n, n <> "alpha" -> hs1 !! n = hs !! n).
  { intros n Hn. subst hs1. now rewrite lookup_insert_ne. }
  assert (Hd1 : forall n, data <$> hs1 !! n = data <$> hs !! n).
  { intros n. destruct (decide (n = "alpha")) as [->|Hn].
    - now rewrite H1, Ha.
    - now rewrite Hne. }
  destruct adam; [|destruct hyperadam].
  - (* adam: every member is zeroed *)
    eexists; split; [reflexivity|]. split_and!; try discriminate.
    + exists (zero_grad_of (zero_grad_of pa)).
      now rewrite lookup_fmap, H1.
    + intros _ n p. rewrite lookup_fmap.
      destruct (hs1 !! n); simpl; [|discriminate].
      now intros [= <-].
    + intros n. rewrite lookup_fmap, <- Hd1.
      now destruct (hs1 !! n).
  - (* hyperadam: every member but the two moment decays is zeroed *)
    eexists; split; [reflexivity|]. split_and!; try discriminate.
    + exists (zero_grad_of (zero_grad_of pa)).
      rewrite map_lookup_imap, H1. simpl.
      now rewrite hyperadam_mask_other.
    + intros _ _. split_and!.
      * intros n p. rewrite map_lookup_imap.
        destruct (hs1 !! n); simpl; [|discriminate].
        intros [= <-] Hb1 Hb2. now rewrite hyperadam_mask_other.
      * rewrite map_lookup_imap, Hne by discriminate.
        destruct (hs !! "beta1"); simpl; [|reflexivity].
        rewrite hyperadam_mask_beta; auto.
      * rewrite map_lookup_imap, Hne by discriminate.
        destruct (hs !! "beta2"); simpl; [|reflexivity].
        rewrite hyperadam_mask_beta; auto.
    + intros n. rewrite map_lookup_imap, <- Hd1.
      destruct (hs1 !! n); simpl; [|reflexivity].
      now rewrite hyperadam_mask_data.
  - (* full: only the learning rate is zeroed *)
    eexists; split; [reflexivity|]. split_and!; try discriminate.
    + now exists (zero_grad_of pa).
    + intros _ _. exact Hne.
    + exact Hd1.
Qed.

Lemma mask_gradients_post_witness :
  exists hs',
    mask_gradients false true (after_backward (fun _ => 1%R)) = Return hs' /\
    (exists pa', hs' !! "alpha" = Some pa' /\ grad pa' = Some 0%R) /\
    (false = true ->
     forall n p, hs' !! n = Some p -> grad p = Some 0%R) /\
    (false = false -> true = true ->
     (forall n p, hs' !! n = Some p ->
        n <> "beta1" -> n <> "beta2" -> grad p = Some 0%R) /\
     hs' !! "beta1" = after_backward (fun _ => 1%R) !! "beta1" /\
     hs' !! "beta2" = after_backward (fun _ => 1%R) !! "beta2") /\
    (false = false -> true = false ->
     forall n, n <> "alpha" -> hs' !! n = after_backward (fun _ => 1%R) !! n) /\
    (forall n, data <$> hs' !! n = data <$> after_backward (fun _ => 1%R) !! n).
Proof.
  apply (mask_gradients_post false true (after_backward (fun _ => 1%R))
           (Hyper (1 / 1000)%R (Some 1%R)) 1%R); reflexivity.
Defined.

End MaskingFacts.

(** ** The manual weight decay *)

Module DecayFacts.
Import Decay.

(** The guard of line 364 as a proposition. *)
Lemma decays_iff (p : parameter) :
  (2 <=? dim (data p))%nat && requires_grad p = true <->
  (2 <= dim (data p))%nat /\ requires_grad p = true.
Proof. rewrite andb_true_iff, Nat.leb_le. reflexivity. Qed.

Lemma decay_param_skip hs wd (p : parameter) :
  (dim (data p) < 2)%nat \/ requires_grad p = false ->
  decay_param hs wd p = Return p.
Proof.
  intros H. unfold decay_param.
  destruct ((2 <=? dim (data p))%nat && requires_grad p) eqn:E;
    [|reflexivity].
  apply decays_iff in E as [Hd Hr]. destruct H; [lia|congruence].
Qed.

Lemma decay_param_apply hs wd (p : parameter) a :
  hs !! "alpha" = Some a ->
  (2 <= dim (data p))%nat -> requires_grad p = true ->
  decay_param hs wd p =
  Return (Param (sub (data p) (scale (Masking.data a * wd)%R (data p))) true).
Proof.
  intros Ha Hd Hr. unfold decay_param.
  rewrite (proj2 (decays_iff p)) by auto. now rewrite Ha, Hr.
Qed.

Lemma decay_param_total hs wd (p : parameter) a :
  hs !! "alpha" = Some a -> exists p', decay_param hs wd p = Return p'.
Proof.
  intros Ha. unfold decay_param. rewrite Ha.
  destruct (_ && _); eauto.
Qed.

(** The loop visits the parameters one by one and keeps their order. *)
Lemma decay_step_lookup hs wd (ps ps' : list parameter) :
  decay_step hs wd ps = Return ps' ->
  length ps' = length ps /\
  forall i p, ps !! i = Some p ->
    exists p', ps' !! i = Some p' /\ decay_param hs wd p = Return p'.
Proof.
  revert ps'. induction ps as [|q ps IH]; intros ps' H; simpl in H.
  - injection H as <-. split; [reflexivity|]. intros i p Hi. discriminate.
  - destruct (decay_param hs wd q) as [q'|] eqn:Eq; simpl in H; [|discriminate].
    destruct (decay_step hs wd ps) as [qs|] eqn:Es; simpl in H; [|discriminate].
    injection H as <-. destruct (IH qs eq_refl) as [Hlen Hlk].
    split; [simpl; now rewrite Hlen|].
    intros [|i] p Hi; simpl in *.
    + injection Hi as <-. eauto.
    + now apply Hlk.
Qed.

Lemma decay_step_total hs wd (ps : list parameter) a :
  hs !! "alpha" = Some a -> exists ps', decay_step hs wd ps = Return ps'.
Proof.
  intros Ha. induction ps as [|q ps [qs IH]]; simpl; [eauto|].
  destruct (decay_param_total hs wd q a Ha) as [q' ->]. rewrite IH. simpl. eauto.
Qed.

(** An entry [w] becomes [w - s * w]. *)
Lemma sub_scale_lookup (s : R) (t : tensor) (j : nat) (w : R) :
  entries t !! j = Some w ->
  entries (sub t (scale s t)) !! j = Some (w - s * w)%R.
Proof.
  intros Hj. unfold sub, scale; simpl.
  rewrite lookup_zip_with, list_lookup_fmap, Hj. reflexivity.
Qed.

Lemma sub_scale_length (s : R) (t : tensor) :
  length (entries (sub t (scale s t))) = length (entries t).
Proof.
  unfold sub, scale; simpl. rewrite length_zip_with, length_fmap. lia.
Qed.

(** Shrinking by a factor of zero is the identity. *)
Lemma sub_scale_zero (s : R) (t : tensor) :
  s = 0%R -> sub t (scale s t) = t.
Proof.
  intros ->. destruct t as [sh es]. unfold sub, scale; simpl. f_equal.
  induction es as [|e es IH]; csimpl; [reflexivity|].
  rewrite IH. f_equal. lra.
Qed.

Lemma decay_param_zero hs (p : parameter) a :
  hs !! "alpha" = Some a -> decay_param hs 0%R p = Return p.
Proof.
  intros Ha. unfold decay_param. rewrite Ha.
  destruct (_ && _); [|reflexivity].
  rewrite sub_scale_zero by lra. now destruct p.
Qed.

Lemma decay_step_zero hs (ps : list parameter) a :
  hs !! "alpha" = Some a -> decay_step hs 0%R ps = Return ps.
Proof.
  intros Ha. induction ps as [|q ps IH]; simpl; [reflexivity|].
  rewrite (decay_param_zero hs q a Ha), IH. reflexivity.
Qed.

(** C3 (as amended): with [a] the value held in the ['alpha'] slot of the
    Hyperparameter Set, the decay step returns, and every parameter of rank
    at least 2 that requires gradients has each entry [w] replaced by
    [w - a * weight_decay * w], its shape and flag kept; with
    [weight_decay = 0] the step leaves every parameter unchanged. *)
Theorem weight_decay_step (hs : gmap string Masking.hyperparameter)
    (a : Masking.hyperparameter) (wd : R) (ps : list parameter) :
  hs !! "alpha" = Some a ->
  exists ps',
    decay_step hs wd ps = Return ps' /\
    (forall i p, ps !! i = Some p ->
       (2 <= dim (data p))%nat -> requires_grad p = true ->
       exists p',
         ps' !! i = Some p' /\
         shape (data p') = shape (data p) /\
         requires_grad p' = true /\
         length (entries (data p')) = length (entries (data p)) /\
         forall j w, entries (data p) !! j = Some w ->
           entries (data p') !! j = Some (w - Masking.data a * wd * w)%R) /\
    (wd = 0%R -> ps' = ps).
Proof.
  intros Ha. destruct (decay_step_total hs wd ps a Ha) as [ps' Hs].
  exists ps'. split; [exact Hs|]. split.
  - intros i p Hi Hd Hr.
    destruct (decay_step_lookup hs wd ps ps' Hs) as [_ Hlk].
    destruct (Hlk i p Hi) as (p' & Hi' & Hp').
    rewrite (decay_param_apply hs wd p a Ha Hd Hr) in Hp'.
    injection Hp' as <-. exists (Param (sub (data p)
      (scale (Masking.data a * wd)%R (data p))) true).
    split_and!; try reflexivity; try assumption.
    + apply sub_scale_length.
    + intros j w Hj. simpl. now apply sub_scale_lookup.
  - intros ->. rewrite (decay_step_zero hs ps a Ha) in Hs. congruence.
Qed.

Lemma weight_decay_step_witness :
  exists ps',
    decay_step (with_alpha (1 / 2)%R) (1 / 10)%R [matrix; bias; frozen]
      = Return ps' /\
    (forall i p, [matrix; bias; frozen] !! i = Some p ->
       (2 <= dim (data p))%nat -> requires_grad p = true ->
       exists p',
         ps' !! i = Some p' /\
         shape (data p') = shape (data p) /\
         requires_grad p' = true /\
         length (entries (data p')) = length (entries (data p)) /\
         forall j w, entries (data p) !! j = Some w ->
           entries (data p') !! j = Some (w - 1 / 2 * (1 / 10) * w)%R) /\
    ((1 / 10)%R = 0%R -> ps' = [matrix; bias; frozen]).
Proof.
  apply (weight_decay_step (with_alpha (1 / 2)%R)
           (Masking.Hyper (1 / 2)%R (Some 0%R)) (1 / 10)%R
           [matrix; bias; frozen]).
  reflexivity.
Defined.

(** C3 (as stated) fails on a frozen matrix: a parameter of rank 2 whose
    [requires_grad] is [False] keeps its value [1], although
    [1 - 1 * 1 * 1 = 0]. *)
Lemma frozen_matrix_not_decayed :
  dim (data frozen) = 2%nat /\
  entries (data frozen) = [1%R] /\
  decay_step (with_alpha 1%R) 1%R [frozen] = Return [frozen] /\
  (1 - 1 * 1 * 1)%R <> 1%R.
Proof. split_and!; try reflexivity. lra. Qed.

(** C10: the decay step changes only parameters that have rank at least 2
    and require gradients: whenever it returns, every parameter of rank
    below 2 and every parameter with [requires_grad = False], whatever its
    rank, is exactly as before; and it does return once the ['alpha'] slot
    exists. *)
Theorem weight_decay_frame (hs : gmap string Masking.hyperparameter)
    (wd : R) (ps : list parameter) :
  (forall ps', decay_step hs wd ps = Return ps' ->
     forall i p, ps !! i = Some p ->
       (dim (data p) < 2)%nat \/ requires_grad p = false ->
       ps' !! i = Some p) /\
  (forall ps', decay_step hs wd ps = Return ps' ->
     forall i p p', ps !! i = Some p -> ps' !! i = Some p' -> p' <> p ->
       (2 <= dim (data p))%nat /\ requires_grad p = true) /\
  (forall a, hs !! "alpha" = Some a ->
     exists ps', decay_step hs wd ps = Return ps').
Proof.
  split_and!.
  - intros ps' Hs i p Hi Hskip.
    destruct (decay_step_lookup hs wd ps ps' Hs) as [_ Hlk].
    destruct (Hlk i p Hi) as (p' & Hi' & Hp').
    rewrite (decay_param_skip hs wd p Hskip) in Hp'. congruence.
  - intros ps' Hs i p p' Hi Hi' Hne.
    destruct (decay_step_lookup hs wd ps ps' Hs) as [_ Hlk].
    destruct (Hlk i p Hi) as (q & Hq & Hp').
    assert (q = p') by congruence. subst q.
    apply decays_iff.
    destruct ((2 <=? dim (data p))%nat && requires_grad p) eqn:E;
      [reflexivity|].
    unfold decay_param in Hp'. rewrite E in Hp'. congruence.
  - intros a Ha. now apply decay_step_total with a.
Qed.

Lemma weight_decay_frame_witness :
  exists ps',
    decay_step (with_alpha (1 / 2)%R) (1 / 10)%R [matrix; bias; frozen]
      = Return ps' /\
    ps' !! 1%nat = Some bias /\ ps' !! 2%nat = Some frozen.
Proof.
  destruct (weight_decay_frame (with_alpha (1 / 2)%R) (1 / 10)%R
              [matrix; bias; frozen]) as (Hframe & _ & Htot).
  destruct (Htot (Masking.Hyper (1 / 2)%R (Some 0%R)) eq_refl) as [ps' Hs].
  exists ps'. split_and!.
  - exact Hs.
  - apply (Hframe ps' Hs 1%nat bias); [reflexivity|]. left. compute. lia.
  - apply (Hframe ps' Hs 2%nat frozen); [reflexivity|]. now right.
Defined.

End DecayFacts.

(** ** The program's control flow *)

Module LoopFacts.
Import Loop.

(** *** Running monadic code *)

Lemma bind_run {A B} (m : M A) (f : A -> M B) (s : state) :
  (m ≫= f) s =
  match m s with
  | (t, Val a s') => (t ++ (f a s').1, (f a s').2)
  | (t, Brk s') => (t, Brk s')
  | (t, Exc e s') => (t, Exc e s')
  end.
Proof.
  unfold mbind, M_bind. destruct (m s) as [t [a s'|s'|e s']]; try reflexivity.
  now destruct (f a s').
Qed.

Lemma bind_val {A B} (m : M A) (f : A -> M B) s t a s' t' r :
  m s = (t, Val a s') -> f a s' = (t', r) -> (m ≫= f) s = (t ++ t', r).
Proof. intros Hm Hf. now rewrite bind_run, Hm, Hf. Qed.

Lemma get_bind {B} (f : state -> M B) (s : state) : (get ≫= f) s = f s s.
Proof. rewrite bind_run. simpl. now destruct (f s s). Qed.

Lemma ret_bind {A B} (a : A) (f : A -> M B) (s : state) :
  (mret a ≫= f) s = f a s.
Proof. rewrite bind_run. simpl. now destruct (f a s). Qed.

Lemma filter_bind {A B} (P : event -> bool) (m : M A) (f : A -> M B) s :
  (forall a, silent P (f a)) ->
  List.filter P ((m ≫= f) s).1 = List.filter P (m s).1.
Proof.
  intros Hf. rewrite bind_run.
  destruct (m s) as [t [a s'|s'|e s']]; simpl; try reflexivity.
  now rewrite List.filter_app, (Hf a s'), app_nil_r.
Qed.

(** *** Silence is compositional *)

Section Silent.
Context (P : event -> bool).

Lemma silent_ret {A} (a : A) : silent P (mret a : M A).
Proof. now intros s. Qed.

Lemma silent_bind {A B} (m : M A) (f : A -> M B) :
  silent P m -> (forall a, silent P (f a)) -> silent P (m ≫= f).
Proof. intros Hm Hf s. rewrite filter_bind by assumption. apply Hm. Qed.

Lemma silent_get : silent P get.
Proof. now intros s. Qed.

Lemma silent_modify f : silent P (modify f).
Proof. now intros s. Qed.

Lemma silent_emit e : P e = false -> silent P (emit e).
Proof. intros He s. simpl. now rewrite He. Qed.

Lemma silent_break : silent P break.
Proof. now intros s. Qed.

Lemma silent_raise {A} e : silent P (raise e : M A).
Proof. now intros s. Qed.

Lemma silent_lift {A} (r : result A) : silent P (lift r).
Proof. destruct r; now intros s. Qed.

Lemma silent_when b m : (b = true -> silent P m) -> silent P (when b m).
Proof. destruct b; simpl; [auto|]. intros _. apply silent_ret. Qed.

End Silent.

(** Decompose a block into its primitive actions. *)
Ltac silent_step :=
  first
    [ apply silent_ret | apply silent_get | apply silent_modify
    | apply silent_break | apply silent_raise | apply silent_lift
    | apply silent_emit; reflexivity
    | apply silent_bind; [|intros ?]
    | apply silent_when; intros ?
    | match goal with
      | |- silent _ (match ?x with _ => _ end) => destruct x
      | |- silent _ (let _ := _ in _) => cbv zeta
      end ].

Ltac silent_auto := repeat silent_step.

Lemma train_block_silent P :
  (forall it, P (EvForwardBackward it) = false) ->
  P EvGetBatch = false ->
  (forall it, P (EvOptimizerStep it) = false) ->
  silent P train_block.
Proof.
  intros H1 H2 H3. unfold train_block.
  apply silent_bind; [apply silent_get|intros s].
  apply silent_bind; [now apply silent_emit|intros _].
  apply silent_bind; [now apply silent_emit|intros _].
  now apply silent_emit.
Qed.

(** Nothing after the evaluation block writes a checkpoint. *)
Lemma after_eval_no_checkpoint c p w :
  silent is_checkpoint
    (eval_only_guard c;; train_block;; log_guard c p w;;
     modify next_iter;; terminate_block c w).
Proof.
  unfold eval_only_guard, train_block, log_guard, log_block, terminate_block, results_write.
  silent_auto.
Qed.

Lemma set_lr_block_silent P c : P EvSetLr = false -> silent P (set_lr_block c).
Proof.
  intros H. unfold set_lr_block.
  apply silent_bind; [apply silent_get|intros s].
  apply silent_bind; [|intros _; now apply silent_emit].
  destruct (decay_lr c); silent_auto.
Qed.

(** *** The blocks, run *)

Lemma py_mod_Return (a b : Z) : b <> 0 -> py_mod a b = Return (a mod b).
Proof. intros Hb. unfold py_mod. now destruct (Z.eqb_spec b 0). Qed.

Lemma set_lr_block_run c s :
  decay_lr c = false \/
  (exists r, Schedule.get_lr (schedule c) (iter_num s) = Return r) ->
  set_lr_block c s = ([EvSetLr], Val tt s).
Proof.
  intros H. unfold set_lr_block. rewrite get_bind.
  destruct (decay_lr c); [|reflexivity].
  destruct H as [H|[r H]]; [discriminate|]. now rewrite H.
Qed.

(** The checkpoints written by the guarded evaluation block. *)
Lemma eval_guard_checkpoints c p w s :
  eval_interval c <> 0 ->
  List.filter is_checkpoint (eval_guard c p w s).1 =
  if (iter_num s mod eval_interval c =? 0) && master_process p
     && (lt (val (estimate_loss w (eval_calls s))) (best_val_loss s)
         || always_save_checkpoint c)
     && (0 <? iter_num s)
  then [EvSaveCheckpoint (iter_num s) (val (estimate_loss w (eval_calls s)))]
  else [].
Proof.
  intros Hei. unfold eval_guard. rewrite get_bind, py_mod_Return by assumption.
  simpl lift. rewrite ret_bind.
  destruct (iter_num s mod eval_interval c =? 0); [|reflexivity].
  destruct (master_process p); [|reflexivity].
  cbn [when andb]. unfold eval_block. rewrite get_bind. cbv zeta.
  destruct (wandb_log c), (lt _ _), (always_save_checkpoint c),
    (0 <? iter_num s); reflexivity.
Qed.

Lemma loop_body_checkpoints c p w s :
  decay_lr c = false \/
  (exists r, Schedule.get_lr (schedule c) (iter_num s) = Return r) ->
  List.filter is_checkpoint (loop_body c p w s).1 =
  List.filter is_checkpoint (eval_guard c p w s).1.
Proof.
  intros Hlr. unfold loop_body.
  rewrite bind_run, (set_lr_block_run c s Hlr). simpl.
  apply filter_bind. intros _. apply after_eval_no_checkpoint.
Qed.

(** C4 (as amended): in a pass of the loop that gets past the schedule, a
    checkpoint is written exactly when the iteration count is a multiple of
    [eval_interval], the process is the leader, the validation loss just
    measured is strictly below [best_val_loss] or [always_save_checkpoint]
    is set, and the iteration count is greater than zero; it is then the one
    record of this iteration and of the loss just measured. *)
Theorem checkpoint_trigger (c : config) (p : process) (w : world) (s : state) :
  decay_lr c = false \/
  (exists r, Schedule.get_lr (schedule c) (iter_num s) = Return r) ->
  eval_interval c <> 0 ->
  let v := val (estimate_loss w (eval_calls s)) in
  let written := List.filter is_checkpoint (loop_body c p w s).1 in
  let due :=
    iter_num s mod eval_interval c = 0 /\
    master_process p = true /\
    (lt v (best_val_loss s) = true \/ always_save_checkpoint c = true) /\
    0 < iter_num s in
  (due -> written = [EvSaveCheckpoint (iter_num s) v]) /\
  (~ due -> written = []).
Proof.
  intros Hlr Hei v written due. subst written.
  rewrite loop_body_checkpoints, eval_guard_checkpoints by assumption.
  fold v.
  assert (Hdue : due <->
    (iter_num s mod eval_interval c =? 0) && master_process p
    && (lt v (best_val_loss s) || always_save_checkpoint c)
    && (0 <? iter_num s) = true).
  { subst due.
    rewrite !andb_true_iff, orb_true_iff, Z.eqb_eq, Z.ltb_lt. tauto. }
  destruct (_ && _ && _ && _).
  - split; [reflexivity|]. intros Hn. exfalso. apply Hn, Hdue. reflexivity.
  - split; [|reflexivity]. intros Hd. apply Hdue in Hd. discriminate.
Qed.

Lemma checkpoint_trigger_witness :
  List.filter is_checkpoint
    (loop_body (scheduled 2 5 false) single
       (replay [Losses (Fin 1) (Fin 2)]) (State 2 2 (Fin 3) None None 0)).1
  = [EvSaveCheckpoint 2 (Fin 2)].
Proof.
  destruct (checkpoint_trigger (scheduled 2 5 false) single
              (replay [Losses (Fin 1) (Fin 2)])
              (State 2 2 (Fin 3) None None 0)) as [Hdue _].
  - right. eexists. apply ScheduleFacts.get_lr_warmup. simpl. lia.
  - discriminate.
  - apply Hdue. split_and!; [reflexivity|reflexivity| |reflexivity].
    left. reflexivity.
Defined.

(** C4 (as stated) fails at iteration 0: the iteration count is a multiple
    of [eval_interval], the process is the leader and the always-save policy
    is set, yet no checkpoint is written. *)
Lemma no_checkpoint_at_iteration_zero :
  iter_num (initial_state None) mod eval_interval (quiet 2000 5 true) = 0 /\
  master_process single = true /\
  always_save_checkpoint (quiet 2000 5 true) = true /\
  List.filter is_checkpoint
    (loop_body (quiet 2000 5 true) single (replay []) (initial_state None)).1
  = [].
Proof. split_and!; reflexivity. Qed.

(** *** The best validation loss *)

Lemma interval_vals_app (t t' : list event) :
  interval_vals (t ++ t') = interval_vals t ++ interval_vals t'.
Proof.
  induction t as [|e t IH]; [reflexivity|].
  destruct e as [| | |[|] l| | | | | |]; simpl; now rewrite ?IH.
Qed.

Section Tracks.
Context (always_save : bool).

Lemma tracks_bind {A B} (m : M A) (f : A -> M B) :
  tracks always_save m -> (forall a, tracks always_save (f a)) ->
  tracks always_save (m ≫= f).
Proof.
  intros Hm Hf s. rewrite bind_run. specialize (Hm s).
  destruct (m s) as [t [a s'|s'|e s']]; simpl in *; try exact Hm.
  rewrite interval_vals_app, fold_left_app, <- Hm. apply Hf.
Qed.

Lemma tracks_ret {A} (a : A) : tracks always_save (mret a : M A).
Proof. now intros s. Qed.

Lemma tracks_get : tracks always_save get.
Proof. now intros s. Qed.

Lemma tracks_modify f :
  (forall s, best_val_loss (f s) = best_val_loss s) ->
  tracks always_save (modify f).
Proof. intros Hf s. simpl. apply Hf. Qed.

Lemma tracks_emit e : interval_vals [e] = [] -> tracks always_save (emit e).
Proof. intros He s. simpl in *. now rewrite He. Qed.

Lemma tracks_break : tracks always_save break.
Proof. now intros s. Qed.

Lemma tracks_raise {A} e : tracks always_save (raise e : M A).
Proof. now intros s. Qed.

Lemma tracks_lift {A} (r : result A) : tracks always_save (lift r).
Proof. destruct r; now intros s. Qed.

Lemma tracks_when b m :
  (b = true -> tracks always_save m) -> tracks always_save (when b m).
Proof. destruct b; simpl; [auto|]. intros _. apply tracks_ret. Qed.

End Tracks.

Ltac tracks_step :=
  first
    [ apply tracks_ret | apply tracks_get | apply tracks_break
    | apply tracks_raise | apply tracks_lift
    | apply tracks_modify; intros ?; reflexivity
    | apply tracks_emit; reflexivity
    | apply tracks_bind; [|intros ?]
    | apply tracks_when; intros ?
    | match goal with
      | |- tracks _ (match ?x with _ => _ end) => destruct x
      | |- tracks _ (let _ := _ in _) => cbv zeta
      end ].

Ltac tracks_auto := repeat tracks_step.

(** Lines 315-316 are [update_best]. *)
Lemma eval_block_tracks c w :
  tracks (always_save_checkpoint c) (eval_block c w).
Proof.
  intros s. unfold eval_block. rewrite get_bind. cbv zeta.
  unfold update_best.
  destruct (wandb_log c), (lt _ _) eqn:E, (always_save_checkpoint c),
    (0 <? iter_num s); simpl; rewrite ?E; reflexivity.
Qed.

Lemma loop_body_tracks c p w :
  tracks (always_save_checkpoint c) (loop_body c p w).
Proof.
  unfold loop_body, set_lr_block, eval_guard, eval_only_guard, train_block,
    log_guard, log_block, terminate_block, results_write.
  repeat first [ apply eval_block_tracks | tracks_step ].
Qed.

Lemma run_tracks c p w fuel s :
  best_val_loss (state_of (run fuel c p w s).2) =
  fold_left (update_best (always_save_checkpoint c))
    (interval_vals (run fuel c p w s).1) (best_val_loss s).
Proof.
  revert s. induction fuel as [|fuel IH]; intros s; [reflexivity|].
  simpl. pose proof (loop_body_tracks c p w s) as Hb.
  destruct (loop_body c p w s) as [t [[] s'|s'|e s']]; simpl in *;
    try exact Hb.
  specialize (IH s'). destruct (run fuel c p w s') as [t' r]. simpl in *.
  now rewrite interval_vals_app, fold_left_app, <- Hb.
Qed.

(** [lt] is a strict order. *)
Lemma lt_Fin (a b : Q) : lt (Fin a) (Fin b) = true <-> (a < b)%Q.
Proof.
  simpl. rewrite negb_true_iff, <- not_true_iff_false, Qle_bool_iff.
  split; [apply Qnot_le_lt|apply Qlt_not_le].
Qed.

Lemma lt_irrefl (x : pyfloat) : lt x x = false.
Proof.
  destruct x as [|[|]|q]; try reflexivity.
  apply not_true_iff_false. rewrite lt_Fin. apply Qlt_irrefl.
Qed.

Lemma lt_trans (x y z : pyfloat) :
  lt x y = true -> lt y z = true -> lt x z = true.
Proof.
  destruct x as [|[|]|a], y as [|[|]|b], z as [|[|]|d];
    try discriminate; try reflexivity.
  rewrite !lt_Fin. apply Qlt_trans.
Qed.

(** With the always-save policy, the latest measurement wins. *)
Lemma fold_update_always (vs : list pyfloat) (b : pyfloat) :
  fold_left (update_best true) vs b = List.last vs b.
Proof.
  induction vs as [|v vs _] using rev_ind; [reflexivity|].
  rewrite fold_left_app, List.last_last. simpl.
  unfold update_best. now rewrite orb_true_r.
Qed.

(** Without it, the result is a least element of the old value and the
    measurements. *)
Lemma fold_update_min (vs : list pyfloat) (b : pyfloat) :
  let r := fold_left (update_best false) vs b in
  In r (b :: vs) /\ forall v, In v (b :: vs) -> lt v r = false.
Proof.
  induction vs as [|v vs IH] using rev_ind; simpl.
  - split; [now left|]. intros v [<-|[]]. apply lt_irrefl.
  - rewrite fold_left_app. simpl. destruct IH as [Hin Hlow].
    set (r := fold_left (update_best false) vs b) in *.
    unfold update_best. rewrite orb_false_r.
    destruct (lt v r) eqn:Hv.
    + split.
      * right. apply in_or_app. right. now left.
      * intros x Hx.
        assert (Hx' : In x (b :: vs) \/ x = v).
        { destruct Hx as [->|Hx]; [left; now left|].
          apply in_app_or in Hx as [Hx|[<-|[]]]; [left; now right|now right]. }
        destruct Hx' as [Hx'| ->]; [|apply lt_irrefl].
        apply not_true_iff_false. intros Hxv.
        pose proof (lt_trans x v r Hxv Hv) as Hxr.
        rewrite (Hlow x Hx') in Hxr. discriminate.
    + split.
      * destruct Hin as [Hin|Hin]; [now left|].
        right. apply in_or_app. now left.
      * intros x [->|Hx]; [apply Hlow; now left|].
        apply in_app_or in Hx as [Hx|[<-|[]]]; [|exact Hv].
        apply Hlow. now right.
Qed.

(** C6 (as amended): at every point of a run, if the always-save policy is
    off, [best_val_loss] is its initial value or one of the validation
    losses measured by the periodic evaluations so far and none of these is
    below it (so it is their minimum, and it never increases); if the policy
    is on, [best_val_loss] is the validation loss measured last. *)
Theorem best_val_loss_tracking (c : config) (p : process) (w : world)
    (s : state) (fuel : nat) :
  let out := run fuel c p w s in
  let b := best_val_loss (state_of out.2) in
  let vs := interval_vals out.1 in
  (always_save_checkpoint c = false ->
   In b (best_val_loss s :: vs) /\
   forall v, In v (best_val_loss s :: vs) -> lt v b = false) /\
  (always_save_checkpoint c = true ->
   b = List.last vs (best_val_loss s)).
Proof.
  intros out b vs. subst b vs out. rewrite run_tracks.
  split; intros ->.
  - apply fold_update_min.
  - apply fold_update_always.
Qed.

Lemma best_val_loss_tracking_witness :
  lt (Fin 2)
     (best_val_loss
        (state_of
           (run 3 (quiet 1 5 false) single
              (replay [Losses (Fin 1) (Fin 3); Losses (Fin 1) (Fin 2);
                       Losses (Fin 1) (Fin 4)])
              (initial_state None)).2))
  = false.
Proof.
  destruct (best_val_loss_tracking (quiet 1 5 false) single
              (replay [Losses (Fin 1) (Fin 3); Losses (Fin 1) (Fin 2);
                       Losses (Fin 1) (Fin 4)])
              (initial_state None) 3) as [Hmin _].
  destruct (Hmin eq_refl) as [_ Hlow]. apply Hlow.
  right. right. left. reflexivity.
Defined.

(** C6 (as stated) fails under the always-save policy: after validation
    losses 1 and then 2, [best_val_loss] has gone from 1 up to 2, above the
    least loss measured. *)
Lemma best_val_loss_increases_when_always_saving :
  let w := replay [Losses (Fin 1) (Fin 1); Losses (Fin 1) (Fin 2)] in
  let after n := run n (quiet 1 5 true) single w (initial_state None) in
  best_val_loss (state_of (after 1%nat).2) = Fin 1 /\
  best_val_loss (state_of (after 2%nat).2) = Fin 2 /\
  interval_vals (after 2%nat).1 = [Fin 1; Fin 2] /\
  lt (Fin 1) (Fin 2) = true.
Proof. split_and!; reflexivity. Qed.

(** *** Start-up *)

(** C7: a configuration that selects both [adam] and [hyperadam] fails with
    an [AssertionError] at start-up, with nothing done: no batch has been
    read and no training step run. *)
Theorem exclusive_modes_fail_fast (c : config) (p : process) (w : world)
    (resume : option checkpoint) (fuel : nat) :
  adam c = true -> hyperadam c = true ->
  main c p w resume fuel = ([], StartupError AssertionError).
Proof. intros Ha Hh. unfold main. now rewrite Ha, Hh. Qed.

Lemma exclusive_modes_fail_fast_witness :
  main both_modes single (replay []) None 10 = ([], StartupError AssertionError).
Proof.
  apply (exclusive_modes_fail_fast both_modes single (replay []) None 10);
    reflexivity.
Defined.

(** *** Termination on a NaN training loss *)

(** The evaluation block always runs to its end. *)
Lemma eval_block_run c w s :
  let l := estimate_loss w (eval_calls s) in
  exists t b,
    eval_block c w s =
      (t, Val tt (State (iter_num s) (local_iter_num s) b (Some l) (lossf s)
                        (S (eval_calls s)))) /\
    List.filter is_evaluation t = [EvEstimateLoss AtInterval l] /\
    List.filter is_training t = [].
Proof.
  intros l. subst l. unfold eval_block. rewrite get_bind. cbv zeta.
  destruct (wandb_log c), (lt _ _), (always_save_checkpoint c),
    (0 <? iter_num s); do 2 eexists; split_and!; reflexivity.
Qed.

(** The termination block once it has decided to stop (lines 393-414):
    line 398 needs [lossf], line 404 the results directory. *)
Lemma terminate_block_stop c w s :
  (max_iters c <? iter_num s) = true \/
  (exists l, losses s = Some l /\ isnan (train l) = true) ->
  terminate_block c w s =
  let l' := estimate_loss w (eval_calls s) in
  match lossf s with
  | None =>
      ([EvEstimateLoss AtTermination l'; EvPrint LogDevice],
       Exc (NameError "lossf") (set_losses l' s))
  | Some _ =>
      if hypergrad c && negb (results_dir w)
      then (final_report w s, Exc FileNotFoundError (set_losses l' s))
      else (final_events c w s, Brk (set_losses l' s))
  end.
Proof.
  intros H. unfold terminate_block, results_write, final_events, final_report.
  rewrite get_bind.
  destruct (max_iters c <? iter_num s);
    [|destruct H as [H|(l & Hl & Hn)]; [discriminate|rewrite Hl, Hn]];
    destruct (lossf s), (hypergrad c), (results_dir w); reflexivity.
Qed.

Lemma can_report_spec c w :
  can_report c w -> hypergrad c && negb (results_dir w) = false.
Proof. intros [->| ->]; [reflexivity|apply andb_false_r]. Qed.

Lemma terminate_block_nan c w s l x :
  losses s = Some l -> isnan (train l) = true -> lossf s = Some x ->
  can_report c w ->
  terminate_block c w s =
  (final_events c w s, Brk (set_losses (estimate_loss w (eval_calls s)) s)).
Proof.
  intros Hl Hnan Hf Hrep. rewrite terminate_block_stop by (right; eauto).
  cbv zeta. now rewrite Hf, can_report_spec.
Qed.

(** Within the budget and without a NaN the loop goes on. *)
Lemma terminate_block_on c w s l :
  (max_iters c <? iter_num s) = false ->
  losses s = Some l -> isnan (train l) = false ->
  terminate_block c w s = ([], Val tt s).
Proof.
  intros Hmax Hl Hnan. unfold terminate_block.
  now rewrite get_bind, Hmax, Hl, Hnan.
Qed.

Lemma eval_guard_master c p w s :
  eval_interval c <> 0 -> iter_num s mod eval_interval c = 0 ->
  master_process p = true ->
  eval_guard c p w s = eval_block c w s.
Proof.
  intros Hei Hmod Hm. unfold eval_guard.
  rewrite get_bind, py_mod_Return by assumption. simpl lift.
  rewrite ret_bind, Hmod, Hm. reflexivity.
Qed.

Lemma eval_only_guard_skip c s :
  (iter_num s =? 0) && eval_only c = false ->
  eval_only_guard c s = ([], Val tt s).
Proof. intros H. unfold eval_only_guard. now rewrite get_bind, H. Qed.

Lemma train_block_run s :
  train_block s =
  ([EvForwardBackward (iter_num s); EvGetBatch; EvOptimizerStep (iter_num s)],
   Val tt s).
Proof. reflexivity. Qed.

(** On the leader, after an evaluation, the logging guard leaves [lossf]
    bound if it was bound or if this iteration is logged. *)
Lemma log_guard_run c p w s l :
  log_interval c <> 0 -> master_process p = true -> losses s = Some l ->
  iter_num s mod log_interval c = 0 \/ is_Some (lossf s) ->
  exists t x,
    log_guard c p w s =
      (t, Val tt (State (iter_num s) (local_iter_num s) (best_val_loss s)
                        (losses s) (Some x) (eval_calls s))) /\
    List.filter is_evaluation t = [] /\
    List.filter is_training t = [].
Proof.
  intros Hli Hm Hl Hlog. unfold log_guard.
  rewrite get_bind, py_mod_Return by assumption. simpl lift.
  rewrite ret_bind, Hm, andb_true_r.
  destruct s as [it lit b ls lf ec]; simpl in *; subst ls.
  destruct (Z.eqb_spec (it mod log_interval c) 0) as [E|E].
  - exists [EvPrint (LogIter it)], (batch_loss w it).
    split_and!; reflexivity.
  - destruct Hlog as [?|[x ->]]; [contradiction|].
    exists [], x. split_and!; reflexivity.
Qed.

(** The logging guard on the leader once [losses] is bound: [lossf] is
    assigned exactly at the multiples of [log_interval]. *)
Lemma log_guard_leader c p w s l :
  log_interval c <> 0 -> master_process p = true -> losses s = Some l ->
  log_guard c p w s =
  if iter_num s mod log_interval c =? 0
  then ([EvPrint (LogIter (iter_num s))],
        Val tt (set_lossf (batch_loss w (iter_num s)) s))
  else ([], Val tt s).
Proof.
  intros Hli Hm Hl. unfold log_guard.
  rewrite get_bind, py_mod_Return by assumption. simpl lift.
  rewrite ret_bind, Hm, andb_true_r.
  destruct (iter_num s mod log_interval c =? 0); [|reflexivity].
  cbn [when]. unfold log_block. rewrite get_bind, Hl. reflexivity.
Qed.

(** A pass of the leader at a multiple of [eval_interval], up to the
    termination test of line 392: the periodic evaluation, the meta-step of
    this iteration, the log lines if the iteration is logged. *)
Lemma leader_eval_pass c p w s :
  master_process p = true ->
  decay_lr c = false \/
  (exists r, Schedule.get_lr (schedule c) (iter_num s) = Return r) ->
  eval_interval c <> 0 -> iter_num s mod eval_interval c = 0 ->
  (iter_num s =? 0) && eval_only c = false ->
  log_interval c <> 0 ->
  exists pre s1,
    (forall t r, terminate_block c w s1 = (t, r) ->
       loop_body c p w s = (pre ++ t, r)) /\
    List.filter is_evaluation pre =
      [EvEstimateLoss AtInterval (estimate_loss w (eval_calls s))] /\
    List.filter is_training pre =
      [EvForwardBackward (iter_num s); EvGetBatch;
       EvOptimizerStep (iter_num s)] /\
    iter_num s1 = iter_num s + 1 /\
    eval_calls s1 = S (eval_calls s) /\
    losses s1 = Some (estimate_loss w (eval_calls s)) /\
    (iter_num s mod log_interval c = 0 \/ is_Some (lossf s) <->
     is_Some (lossf s1)).
Proof.
  intros Hm Hlr Hei Hmod Heo Hli.
  destruct (eval_block_run c w s) as (t1 & b & He & Hev1 & Htr1).
  set (l := estimate_loss w (eval_calls s)) in *.
  set (e1 := State (iter_num s) (local_iter_num s) b (Some l) (lossf s)
                   (S (eval_calls s))) in *.
  pose proof (log_guard_leader c p w e1 l Hli Hm eq_refl) as Hlg.
  assert (Hbody : forall t2 e2 t r,
    log_guard c p w e1 = (t2, Val tt e2) ->
    terminate_block c w (next_iter e2) = (t, r) ->
    loop_body c p w s =
    (([EvSetLr] ++ t1 ++
      [EvForwardBackward (iter_num s); EvGetBatch;
       EvOptimizerStep (iter_num s)] ++ t2) ++ t, r)).
  { intros t2 e2 t r H2 Ht.
    transitivity
      ([EvSetLr] ++ t1 ++ [] ++
       [EvForwardBackward (iter_num s); EvGetBatch;
        EvOptimizerStep (iter_num s)] ++ t2 ++ [] ++ t, r).
    - unfold loop_body.
      eapply bind_val; [now apply set_lr_block_run|].
      eapply bind_val; [rewrite eval_guard_master by assumption; exact He|].
      eapply bind_val; [apply eval_only_guard_skip; exact Heo|].
      eapply bind_val; [exact (train_block_run e1)|].
      eapply bind_val; [exact H2|].
      eapply bind_val; [reflexivity|exact Ht].
    - simpl. do 2 f_equal. now rewrite <- app_assoc. }
  simpl iter_num in Hlg.
  destruct (Z.eqb_spec (iter_num s mod log_interval c) 0) as [E|E].
  - eexists _, (next_iter (set_lossf (batch_loss w (iter_num s)) e1)).
    split; [intros t r; apply Hbody; exact Hlg|].
    split_and!; try reflexivity.
    + rewrite !List.filter_app, Hev1. reflexivity.
    + rewrite !List.filter_app, Htr1. reflexivity.
    + split; [now eexists|now left].
  - eexists _, (next_iter e1).
    split; [intros t r; apply Hbody; exact Hlg|].
    split_and!; try reflexivity.
    + rewrite !List.filter_app, Hev1. reflexivity.
    + rewrite !List.filter_app, Htr1. reflexivity.
    + simpl. split; [intros [?|?]; [contradiction|assumption]|now right].
Qed.




(** *** Leader and workers *)

Lemma eval_guard_worker P c p w :
  master_process p = false -> silent P (eval_guard c p w).
Proof.
  intros Hm. unfold eval_guard.
  apply silent_bind; [apply silent_get|intros s].
  apply silent_bind; [apply silent_lift|intros r].
  apply silent_when. rewrite Hm, andb_false_r. discriminate.
Qed.

Lemma log_guard_worker P c p w :
  master_process p = false -> silent P (log_guard c p w).
Proof.
  intros Hm. unfold log_guard.
  apply silent_bind; [apply silent_get|intros s].
  apply silent_bind; [apply silent_lift|intros r].
  apply silent_when. rewrite Hm, andb_false_r. discriminate.
Qed.

(** The guards of lines 304 and 375 hold: a worker never runs the periodic
    evaluation, never writes a checkpoint and never prints the
    per-iteration log lines. *)
Lemma worker_loop_body c p w :
  master_process p = false -> silent is_leader_only (loop_body c p w).
Proof.
  intros Hm. unfold loop_body.
  apply silent_bind; [now apply set_lr_block_silent|intros _].
  apply silent_bind; [now apply eval_guard_worker|intros _].
  apply silent_bind; [unfold eval_only_guard; silent_auto|intros _].
  apply silent_bind; [now apply train_block_silent|intros _].
  apply silent_bind; [now apply log_guard_worker|intros _].
  unfold terminate_block, results_write. silent_auto.
Qed.

Lemma worker_run c p w fuel s :
  master_process p = false ->
  List.filter is_leader_only (run fuel c p w s).1 = [].
Proof.
  intros Hm. revert s. induction fuel as [|fuel IH]; intros s; [reflexivity|].
  simpl. pose proof (worker_loop_body c p w Hm s) as Hb.
  destruct (loop_body c p w s) as [t [[] s'|s'|e s']]; simpl in *;
    try exact Hb.
  specialize (IH s'). destruct (run fuel c p w s') as [t' r]. simpl in *.
  now rewrite List.filter_app, Hb, IH.
Qed.

(** C8 fails on the code: the termination block is not guarded by
    [master_process].  A worker whose iteration budget is exhausted after
    its first pass, be it resumed from the checkpoint of a finished run or
    started with [max_iters = 0], runs [estimate_loss()] on line 393, and
    then stops on line 398 with a [NameError], [lossf] being bound by the
    leader only. *)
Theorem worker_evaluates_at_termination :
  master_process worker = false /\
  main (quiet 2000 600000 true) worker (replay [])
       (Some (Checkpoint 600000 (Fin 2))) 1 =
    ([EvGetBatch; EvSetLr; EvForwardBackward 600000; EvGetBatch;
      EvOptimizerStep 600000;
      EvEstimateLoss AtTermination (Losses (Fin 1) (Fin 1));
      EvPrint LogDevice],
     Loop (Exc (NameError "lossf")
             (State 600001 1 (Fin 2) (Some (Losses (Fin 1) (Fin 1)))
                    None 1))) /\
  main (quiet 2000 0 true) worker (replay []) None 1 =
    ([EvGetBatch; EvSetLr; EvForwardBackward 0; EvGetBatch;
      EvOptimizerStep 0;
      EvEstimateLoss AtTermination (Losses (Fin 1) (Fin 1));
      EvPrint LogDevice],
     Loop (Exc (NameError "lossf")
             (State 1 1 (Fin 1000000000) (Some (Losses (Fin 1) (Fin 1)))
                    None 1))).
Proof. split_and!; reflexivity. Qed.

(** With a budget left, the worker's first pass already ends on line 392
    with a [NameError]: [losses] is bound by the leader only. *)
Lemma worker_stops_on_unbound_losses :
  main (quiet 2000 600000 true) worker (replay []) None 1 =
    ([EvGetBatch; EvSetLr; EvForwardBackward 0; EvGetBatch;
      EvOptimizerStep 0],
     Loop (Exc (NameError "losses")
             (State 1 1 (Fin 1000000000) None None 0))).
Proof. reflexivity. Qed.

End LoopFacts.

(** ** More on the learning-rate schedule *)

Module ScheduleShape.
Import Schedule ScheduleFacts.

(** With well-formed bounds, a non-negative step gets a rate. *)
Lemma get_lr_returns (c : config) (it : Z) :
  warmup_iters c < lr_decay_iters c -> 0 <= it ->
  exists r, get_lr c it = Return r.
Proof.
  intros Hwf H0.
  destruct (Z.lt_ge_cases it (warmup_iters c)).
  - eexists. apply get_lr_warmup; lia.
  - destruct (Z.lt_ge_cases (lr_decay_iters c) it).
    + eexists. now apply get_lr_floor.
    + eexists. apply get_lr_middle; lia.
Qed.



(** The cosine coefficient lies between 0 and 1. *)
Lemma coeff_bounds (x : R) : (0 <= 0.5 * (1 + cos x) <= 1)%R.
Proof. destruct (COS_bound x). lra. Qed.

(** The angle of the cosine branch lies between 0 and [PI] and grows with
    the step. *)
Lemma angle_bounds (c : config) (it : Z) :
  warmup_iters c < lr_decay_iters c ->
  warmup_iters c <= it <= lr_decay_iters c ->
  (0 <= PI * (IZR (it - warmup_iters c)
              / IZR (lr_decay_iters c - warmup_iters c)) <= PI)%R.
Proof.
  intros Hwf [Hlo Hhi].
  assert (Hd : (0 < IZR (lr_decay_iters c - warmup_iters c))%R)
    by (apply IZR_lt; lia).
  assert (Hn : (0 <= IZR (it - warmup_iters c))%R) by (apply IZR_le; lia).
  assert (Hnd : (IZR (it - warmup_iters c)
                 <= IZR (lr_decay_iters c - warmup_iters c))%R)
    by (apply IZR_le; lia).
  assert (Hq : (0 <= IZR (it - warmup_iters c)
                     / IZR (lr_decay_iters c - warmup_iters c) <= 1)%R).
  { pose proof (Rinv_0_lt_compat _ Hd) as Hinv.
    pose proof (Rinv_r (IZR (lr_decay_iters c - warmup_iters c))) as Hone.
    unfold Rdiv. split; [nra|].
    rewrite <- Hone by lra. nra. }
  pose proof PI_RGT_0. split; nra.
Qed.

Lemma angle_mono (c : config) (it it' : Z) :
  warmup_iters c < lr_decay_iters c -> it <= it' ->
  (PI * (IZR (it - warmup_iters c)
         / IZR (lr_decay_iters c - warmup_iters c))
   <= PI * (IZR (it' - warmup_iters c)
            / IZR (lr_decay_iters c - warmup_iters c)))%R.
Proof.
  intros Hwf Hle.
  assert (Hd : (0 < IZR (lr_decay_iters c - warmup_iters c))%R)
    by (apply IZR_lt; lia).
  assert (Hn : (IZR (it - warmup_iters c) <= IZR (it' - warmup_iters c))%R)
    by (apply IZR_le; lia).
  pose proof (Rinv_0_lt_compat _ Hd) as Hinv.
  pose proof PI_RGT_0. unfold Rdiv.
  apply Rmult_le_compat_l; [lra|]. nra.
Qed.

(** The ramp value of a step below [warmup_iters]. *)
Lemma ramp_bounds (lr : R) (it w : Z) :
  0 <= it < w -> (0 <= lr)%R -> (0 <= lr * IZR it / IZR w <= lr)%R.
Proof.
  intros [H0 Hw] Hlr.
  assert (Hwp : (0 < IZR w)%R) by (apply IZR_lt; lia).
  assert (Hi : (0 <= IZR it)%R) by (apply IZR_le; lia).
  assert (Hiw : (IZR it <= IZR w)%R) by (apply IZR_le; lia).
  pose proof (Rinv_0_lt_compat _ Hwp) as Hinv.
  pose proof (Rinv_r (IZR w)) as Hone.
  unfold Rdiv. rewrite Rmult_assoc.
  assert (Hq : (0 <= IZR it * / IZR w <= 1)%R).
  { split; [nra|]. rewrite <- Hone by lra. nra. }
  nra.
Qed.

(** The rate never leaves the interval between 0 and the peak
    [learning_rate], and from the end of the warmup on it stays at or above
    the floor [min_lr]. *)
Theorem get_lr_range (c : config) (it : Z) :
  warmup_iters c < lr_decay_iters c -> 0 <= it ->
  (0 <= min_lr c <= learning_rate c)%R ->
  exists r,
    get_lr c it = Return r /\
    (0 <= r <= learning_rate c)%R /\
    (warmup_iters c <= it -> (min_lr c <= r)%R).
Proof.
  intros Hwf H0 [Hmin Hlr].
  destruct (Z.lt_ge_cases it (warmup_iters c)) as [Hw|Hw].
  - eexists. split; [apply get_lr_warmup; lia|]. split; [|lia].
    apply ramp_bounds; [lia|lra].
  - destruct (Z.lt_ge_cases (lr_decay_iters c) it) as [Hd|Hd].
    + eexists. split; [now apply get_lr_floor|]. lra.
    + eexists. split; [apply get_lr_middle; lia|].
      match goal with |- context [cos ?x] =>
        pose proof (coeff_bounds x) as Hc end.
      split; [|intros _]; nra.
Qed.

Lemma get_lr_range_witness :
  exists r,
    get_lr default 301000 = Return r /\
    (0 <= r <= learning_rate default)%R /\
    (warmup_iters default <= 301000 -> (min_lr default <= r)%R).
Proof.
  apply (get_lr_range default 301000); [bounds|lia|simpl; lra].
Defined.

(** The rate rises over the warmup and never rises again: it is
    non-decreasing over the steps below [warmup_iters] and non-increasing
    from [warmup_iters] on. *)
Theorem get_lr_monotone (c : config) (it it' : Z) (r r' : R) :
  warmup_iters c < lr_decay_iters c ->
  (0 <= learning_rate c)%R -> (min_lr c <= learning_rate c)%R ->
  0 <= it <= it' ->
  get_lr c it = Return r -> get_lr c it' = Return r' ->
  (it' < warmup_iters c -> (r <= r')%R) /\
  (warmup_iters c <= it -> (r' <= r)%R).
Proof.
  intros Hwf Hlr Hmin [H0 Hle] Hr Hr'. split.
  - intros Hw.
    rewrite get_lr_warmup in Hr by lia. rewrite get_lr_warmup in Hr' by lia.
    injection Hr as <-. injection Hr' as <-.
    assert (Hwp : (0 < IZR (warmup_iters c))%R) by (apply IZR_lt; lia).
    assert (Hi : (IZR it <= IZR it')%R) by (apply IZR_le; lia).
    pose proof (Rinv_0_lt_compat _ Hwp) as Hinv.
    unfold Rdiv. apply Rmult_le_compat_r; [lra|nra].
  - intros Hw.
    destruct (Z.lt_ge_cases (lr_decay_iters c) it) as [Hd|Hd].
    + rewrite get_lr_floor in Hr by lia. rewrite get_lr_floor in Hr' by lia.
      injection Hr as <-. injection Hr' as <-. lra.
    + rewrite get_lr_middle in Hr by lia. injection Hr as <-.
      match goal with |- context [cos ?x] =>
        pose proof (coeff_bounds x) as Hc end.
      destruct (Z.lt_ge_cases (lr_decay_iters c) it') as [Hd'|Hd'].
      * rewrite get_lr_floor in Hr' by lia. injection Hr' as <-. nra.
      * rewrite get_lr_middle in Hr' by lia. injection Hr' as <-.
        pose proof (angle_bounds c it Hwf (conj Hw Hd)) as [Ha0 Ha1].
        pose proof (angle_bounds c it' Hwf ltac:(lia)) as [Hb0 Hb1].
        pose proof (angle_mono c it it' Hwf Hle) as Hab.
        pose proof (cos_decr_1 _ _ Ha0 Ha1 Hb0 Hb1 Hab) as Hcos.
        nra.
Qed.

Lemma get_lr_monotone_witness :
  (learning_rate default * 500 / 2000
   <= learning_rate default * 1000 / 2000)%R.
Proof.
  destruct (get_lr_monotone default 500 1000
              (learning_rate default * 500 / 2000)%R
              (learning_rate default * 1000 / 2000)%R) as [Hup _].
  - bounds.
  - simpl; lra.
  - simpl; lra.
  - lia.
  - apply get_lr_warmup. bounds.
  - apply get_lr_warmup. bounds.
  - apply Hup. bounds.
Defined.

End ScheduleShape.

(** ** More on the gradient masking and the weight decay *)

Module MetaStepFacts.
Import Masking MetaStep MaskingFacts.

Lemma zero_grad_of_idem p : zero_grad_of (zero_grad_of p) = zero_grad_of p.
Proof. reflexivity. Qed.

Lemma hyperadam_mask_idem n p :
  hyperadam_mask n (hyperadam_mask n p) = hyperadam_mask n p.
Proof. unfold hyperadam_mask. now destruct (bool_decide _). Qed.

(** The policy returns exactly when the learning rate is a member with a
    populated gradient: a missing ['alpha'] raises [KeyError], an unpopulated
    gradient [TypeError], in every mode and before any other member is
    touched. *)
Theorem mask_gradients_errors (adam hyperadam : bool)
    (hs : gmap string hyperparameter) :
  (hs !! "alpha" = None ->
   mask_gradients adam hyperadam hs = Raise (KeyError "alpha")) /\
  (forall p, hs !! "alpha" = Some p -> grad p = None ->
   mask_gradients adam hyperadam hs = Raise TypeError) /\
  ((exists hs', mask_gradients adam hyperadam hs = Return hs') <->
   exists p g, hs !! "alpha" = Some p /\ grad p = Some g).
Proof.
  unfold mask_gradients, zero_alpha. split_and!.
  - now intros ->.
  - now intros p -> ->.
  - destruct (hs !! "alpha") as [p|]; simpl.
    + destruct (grad p) as [g|] eqn:Hg; simpl.
      * split; [intros _; now exists p, g|intros _].
        destruct adam; [|destruct hyperadam]; eauto.
      * split; [intros [? [=]]|intros (? & ? & [= <-] & ?); congruence].
    + split; [intros [? [=]]|intros (? & ? & [=] & _)].
Qed.

Lemma mask_gradients_errors_witness :
  mask_gradients true false (∅ : gmap string hyperparameter)
  = Raise (KeyError "alpha").
Proof.
  apply (mask_gradients_errors true false ∅). reflexivity.
Defined.

(** Masking twice is masking once. *)
Theorem mask_gradients_idempotent (adam hyperadam : bool)
    (hs hs' : gmap string hyperparameter) :
  mask_gradients adam hyperadam hs = Return hs' ->
  mask_gradients adam hyperadam hs' = Return hs'.
Proof.
  unfold mask_gradients, zero_alpha.
  destruct (hs !! "alpha") as [pa|] eqn:Ha; [|discriminate].
  destruct (grad pa) as [g|] eqn:Hg; [|discriminate]. simpl.
  set (hs1 := <["alpha" := zero_grad_of pa]> hs).
  assert (H1 : hs1 !! "alpha" = Some (zero_grad_of pa))
    by apply lookup_insert_eq.
  destruct adam; [|destruct hyperadam]; intros [= <-].
  - rewrite lookup_fmap, H1. simpl. f_equal. apply map_eq. intros n.
    rewrite lookup_fmap.
    destruct (decide (n = "alpha")) as [->|Hn].
    + now rewrite lookup_insert_eq, lookup_fmap, H1.
    + rewrite lookup_insert_ne by congruence. rewrite lookup_fmap.
      now destruct (hs1 !! n).
  - rewrite map_lookup_imap, H1. simpl.
    rewrite hyperadam_mask_other by discriminate. simpl. f_equal.
    apply map_eq. intros n. rewrite map_lookup_imap.
    destruct (decide (n = "alpha")) as [->|Hn].
    + rewrite lookup_insert_eq. simpl.
      rewrite map_lookup_imap, H1. simpl.
      now rewrite !hyperadam_mask_other by discriminate.
    + rewrite lookup_insert_ne by congruence. rewrite map_lookup_imap.
      destruct (hs1 !! n); simpl; [|reflexivity].
      now rewrite hyperadam_mask_idem.
  - rewrite H1. simpl. f_equal. apply map_eq. intros n.
    destruct (decide (n = "alpha")) as [->|Hn].
    + now rewrite lookup_insert_eq, H1.
    + now rewrite lookup_insert_ne by congruence.
Qed.

Lemma mask_gradients_idempotent_witness :
  exists hs',
    mask_gradients false true (after_backward (fun _ => 1%R)) = Return hs' /\
    mask_gradients false true hs' = Return hs'.
Proof.
  eexists. split; [reflexivity|].
  apply (mask_gradients_idempotent false true
           (after_backward (fun _ => 1%R))).
  reflexivity.
Defined.

(** Masking changes gradients only. *)
Lemma mask_gradients_data (adam hyperadam : bool)
    (hs hs' : gmap string hyperparameter) :
  mask_gradients adam hyperadam hs = Return hs' ->
  forall n, data <$> hs' !! n = data <$> hs !! n.
Proof.
  unfold mask_gradients, zero_alpha.
  destruct (hs !! "alpha") as [pa|] eqn:Ha; [|discriminate].
  destruct (grad pa) as [g|] eqn:Hg; [|discriminate]. simpl.
  set (hs1 := <["alpha" := zero_grad_of pa]> hs).
  assert (Hd1 : forall n, data <$> hs1 !! n = data <$> hs !! n).
  { intros n. subst hs1. destruct (decide (n = "alpha")) as [->|Hn].
    - now rewrite lookup_insert_eq, Ha.
    - now rewrite lookup_insert_ne by congruence. }
  destruct adam; [|destruct hyperadam]; intros [= <-] n; rewrite <- Hd1.
  - rewrite lookup_fmap. now destruct (hs1 !! n).
  - rewrite map_lookup_imap. destruct (hs1 !! n); simpl; [|reflexivity].
    now rewrite hyperadam_mask_data.
  - reflexivity.
Qed.

Lemma mask_gradients_returns (adam hyperadam : bool)
    (hs : gmap string hyperparameter) p g :
  hs !! "alpha" = Some p -> grad p = Some g ->
  exists hs', mask_gradients adam hyperadam hs = Return hs'.
Proof.
  intros Ha Hg. unfold mask_gradients.
  rewrite (zero_alpha_Return hs p g Ha Hg). simpl.
  destruct adam; [|destruct hyperadam]; eauto.
Qed.

Lemma bind_lr_Return lr (hs : gmap string hyperparameter) pa :
  hs !! "alpha" = Some pa ->
  bind_lr lr hs = Return (<["alpha" := Hyper lr (grad pa)]> hs).
Proof. intros Ha. unfold bind_lr. now rewrite Ha. Qed.

(** The weight decay of an iteration uses the rate scheduled for that
    iteration: whatever value the ['alpha'] slot held before, as long as
    the collaborators change no value and populate the gradient of
    ['alpha'], the script's steps up to [mw.step()] succeed, leave the
    scheduled rate in the slot, and replace each entry [w] of every
    trainable parameter of rank at least 2 by [w - lr * weight_decay * w]. *)
Theorem decay_uses_scheduled_rate (decay_lr adam hyperadam : bool)
    (sc : Schedule.config) (wd : R)
    (backward clip : gmap string hyperparameter -> gmap string hyperparameter)
    (it : Z) (hs : gmap string hyperparameter) (ps : list Decay.parameter)
    (lr : R) (pa : hyperparameter) :
  scheduled_lr decay_lr sc it = Return lr ->
  hs !! "alpha" = Some pa ->
  (forall h n, data <$> backward h !! n = data <$> h !! n) ->
  (forall h n, data <$> clip h !! n = data <$> h !! n) ->
  (forall h p, backward h !! "alpha" = Some p -> is_Some (grad p)) ->
  exists hs' ps',
    before_step decay_lr adam hyperadam sc wd backward clip it hs ps
      = Return (hs', ps') /\
    (exists a, hs' !! "alpha" = Some a /\ data a = lr) /\
    length ps' = length ps /\
    forall i p, ps !! i = Some p ->
      (2 <= Decay.dim (Decay.data p))%nat -> Decay.requires_grad p = true ->
      exists p',
        ps' !! i = Some p' /\
        forall j w, Decay.entries (Decay.data p) !! j = Some w ->
          Decay.entries (Decay.data p') !! j = Some (w - lr * wd * w)%R.
Proof.
  intros Hlr Ha Hback Hclip Hgrad. unfold before_step.
  rewrite Hlr. simpl. rewrite (bind_lr_Return lr hs pa Ha). simpl.
  set (hs1 := <["alpha" := Hyper lr (grad pa)]> hs).
  assert (Hb : exists pb, backward hs1 !! "alpha" = Some pb /\ data pb = lr).
  { pose proof (Hback hs1 "alpha") as H. subst hs1.
    rewrite lookup_insert_eq in H.
    destruct (backward _ !! "alpha") as [pb|]; [|discriminate].
    exists pb. split; [reflexivity|]. now injection H. }
  destruct Hb as (pb & Hpb & Hdb).
  destruct (Hgrad hs1 pb Hpb) as [g Hg].
  destruct (mask_gradients_returns adam hyperadam (backward hs1) pb g Hpb Hg)
    as [hs2 Hm].
  rewrite Hm. simpl.
  assert (Hc : exists a, clip hs2 !! "alpha" = Some a /\ data a = lr).
  { pose proof (Hclip hs2 "alpha") as H.
    rewrite (mask_gradients_data _ _ _ _ Hm "alpha"), Hpb in H.
    destruct (clip hs2 !! "alpha") as [a|]; [|discriminate].
    exists a. split; [reflexivity|]. injection H as ->. exact Hdb. }
  destruct Hc as (a & Hca & Hda).
  destruct (DecayFacts.decay_step_total (clip hs2) wd ps a Hca) as [ps' Hs].
  rewrite Hs. simpl. exists (clip hs2), ps'. split; [reflexivity|].
  destruct (DecayFacts.decay_step_lookup (clip hs2) wd ps ps' Hs)
    as [Hlen Hlk].
  split; [now exists a|]. split; [exact Hlen|].
  intros i p Hi Hd Hr. destruct (Hlk i p Hi) as (p' & Hi' & Hp').
  exists p'. split; [exact Hi'|]. intros j w Hj.
  rewrite (DecayFacts.decay_param_apply (clip hs2) wd p a Hca Hd Hr) in Hp'.
  injection Hp' as <-. simpl. rewrite <- Hda.
  now apply DecayFacts.sub_scale_lookup.
Qed.

Lemma unit_backward_data (h : gmap string hyperparameter) n :
  data <$> unit_backward h !! n = data <$> h !! n.
Proof. unfold unit_backward. rewrite lookup_fmap. now destruct (h !! n). Qed.

Lemma halving_clip_data (h : gmap string hyperparameter) n :
  data <$> halving_clip h !! n = data <$> h !! n.
Proof. unfold halving_clip. rewrite lookup_fmap. now destruct (h !! n). Qed.

Lemma unit_backward_grad (h : gmap string hyperparameter) p :
  unit_backward h !! "alpha" = Some p -> is_Some (grad p).
Proof.
  unfold unit_backward. rewrite lookup_fmap.
  destruct (h !! "alpha"); simpl; [|discriminate].
  intros [= <-]. now eexists.
Qed.

Lemma decay_uses_scheduled_rate_witness :
  exists hs' ps',
    before_step true false true Schedule.default (1 / 10)%R
      unit_backward halving_clip 1000 (after_backward (fun _ => 0%R))
      [Decay.matrix; Decay.bias; Decay.frozen]
    = Return (hs', ps') /\
    length ps' = 3%nat.
Proof.
  destruct (decay_uses_scheduled_rate true false true Schedule.default
              (1 / 10)%R unit_backward halving_clip 1000
              (after_backward (fun _ => 0%R))
              [Decay.matrix; Decay.bias; Decay.frozen]
              (Schedule.learning_rate Schedule.default * 1000 / 2000)%R
              (Hyper (1 / 1000)%R (Some 0%R)))
    as (hs' & ps' & Hrun & _ & Hlen & _).
  - apply ScheduleFacts.get_lr_warmup. ScheduleFacts.bounds.
  - reflexivity.
  - apply unit_backward_data.
  - apply halving_clip_data.
  - apply unit_backward_grad.
  - exists hs', ps'. split; [exact Hrun|exact Hlen].
Defined.

End MetaStepFacts.

(** ** More on the weight decay *)

Module DecayShape.
Import Decay DecayFacts.

Lemma decay_param_shape hs wd (p p' : parameter) :
  decay_param hs wd p = Return p' ->
  shape (data p') = shape (data p) /\
  requires_grad p' = requires_grad p /\
  length (entries (data p')) = length (entries (data p)).
Proof.
  unfold decay_param.
  destruct (_ && _); [destruct (hs !! "alpha")|]; intros [= <-];
    split_and!; try reflexivity.
  apply sub_scale_length.
Qed.

(** The decay step is shape-preserving: it returns as many parameters as it
    was given, each with the shape, the number of entries and the
    [requires_grad] flag it had. *)
Theorem decay_step_shapes (hs : gmap string Masking.hyperparameter)
    (wd : R) (ps ps' : list parameter) :
  decay_step hs wd ps = Return ps' ->
  length ps' = length ps /\
  forall i p p', ps !! i = Some p -> ps' !! i = Some p' ->
    shape (data p') = shape (data p) /\
    requires_grad p' = requires_grad p /\
    length (entries (data p')) = length (entries (data p)).
Proof.
  intros Hs. destruct (decay_step_lookup hs wd ps ps' Hs) as [Hlen Hlk].
  split; [exact Hlen|]. intros i p p' Hi Hi'.
  destruct (Hlk i p Hi) as (q & Hq & Hp).
  assert (q = p') by congruence. subst q.
  now apply decay_param_shape with hs wd.
Qed.

Lemma decay_step_shapes_witness :
  exists ps',
    decay_step (with_alpha (1 / 2)%R) (1 / 10)%R [matrix; bias; frozen]
      = Return ps' /\
    length ps' = 3%nat.
Proof.
  destruct (decay_step_total (with_alpha (1 / 2)%R) (1 / 10)%R
              [matrix; bias; frozen] (Masking.Hyper (1 / 2)%R (Some 0%R))
              eq_refl) as [ps' Hs].
  exists ps'. split; [exact Hs|].
  apply (decay_step_shapes (with_alpha (1 / 2)%R) (1 / 10)%R
           [matrix; bias; frozen] ps' Hs).
Defined.

(** With a decay factor [a * weight_decay] between 0 and 1, the step moves
    no entry away from zero and flips no sign: every entry [w] of every
    parameter becomes some [w'] with [|w'| <= |w|] and [w * w' >= 0]. *)
Theorem decay_step_shrinks (hs : gmap string Masking.hyperparameter)
    (a : Masking.hyperparameter) (wd : R) (ps ps' : list parameter) :
  hs !! "alpha" = Some a ->
  (0 <= Masking.data a * wd <= 1)%R ->
  decay_step hs wd ps = Return ps' ->
  forall i p p' j w w',
    ps !! i = Some p -> ps' !! i = Some p' ->
    entries (data p) !! j = Some w -> entries (data p') !! j = Some w' ->
    (Rabs w' <= Rabs w)%R /\ (0 <= w * w')%R.
Proof.
  intros Ha Hs01 Hs i p p' j w w' Hi Hi' Hj Hj'.
  destruct (decay_step_lookup hs wd ps ps' Hs) as [_ Hlk].
  destruct (Hlk i p Hi) as (q & Hq & Hp).
  assert (q = p') by congruence. subst q.
  unfold decay_param in Hp. rewrite Ha in Hp.
  destruct (_ && _); injection Hp as <-.
  - cbn [data] in Hj'. rewrite (sub_scale_lookup _ _ j w Hj) in Hj'.
    injection Hj' as <-.
    replace (w - Masking.data a * wd * w)%R
      with ((1 - Masking.data a * wd) * w)%R by ring.
    split.
    + rewrite Rabs_mult, (Rabs_right (1 - _)) by lra.
      pose proof (Rabs_pos w). nra.
    + nra.
  - assert (w' = w) by congruence. subst w'. split; [lra|nra].
Qed.

Lemma decay_step_shrinks_witness :
  (Rabs (1 - 1 / 2 * (1 / 10) * 1) <= Rabs 1)%R /\
  (0 <= 1 * (1 - 1 / 2 * (1 / 10) * 1))%R.
Proof.
  apply (decay_step_shrinks (with_alpha (1 / 2)%R)
           (Masking.Hyper (1 / 2)%R (Some 0%R)) (1 / 10)%R [matrix]
           [Param (sub (data matrix)
                       (scale (1 / 2 * (1 / 10))%R (data matrix))) true]
           eq_refl)
    with (i := 0%nat) (p := matrix) (j := 0%nat)
         (p' := Param (sub (data matrix)
                           (scale (1 / 2 * (1 / 10))%R (data matrix))) true);
    try reflexivity.
  simpl. lra.
Defined.

(** Without an ['alpha'] slot the step raises [KeyError] as soon as one
    parameter is due for decay, and is the identity when none is. *)
Theorem decay_step_without_alpha (hs : gmap string Masking.hyperparameter)
    (wd : R) (ps : list parameter) :
  hs !! "alpha" = None ->
  (Forall (fun p => (dim (data p) < 2)%nat \/ requires_grad p = false) ps ->
   decay_step hs wd ps = Return ps) /\
  (Exists (fun p => (2 <= dim (data p))%nat /\ requires_grad p = true) ps ->
   decay_step hs wd ps = Raise (KeyError "alpha")).
Proof.
  intros Ha. split.
  - induction 1 as [|p ps Hp _ IH]; simpl; [reflexivity|].
    now rewrite (decay_param_skip hs wd p Hp), IH.
  - induction 1 as [p ps Hp|p ps _ IH]; simpl.
    + unfold decay_param. rewrite (proj2 (decays_iff p) Hp), Ha. reflexivity.
    + unfold decay_param.
      destruct (_ && _); [now rewrite Ha|]. simpl. now rewrite IH.
Qed.

Lemma decay_step_without_alpha_witness :
  decay_step ∅ 1%R [bias; frozen] = Return [bias; frozen] /\
  decay_step ∅ 1%R [bias; matrix] = Raise (KeyError "alpha").
Proof.
  destruct (decay_step_without_alpha ∅ 1%R [bias; frozen] (lookup_empty _))
    as [Hid _].
  destruct (decay_step_without_alpha ∅ 1%R [bias; matrix] (lookup_empty _))
    as [_ Hraise].
  split.
  - apply Hid. constructor; [left; compute; lia|].
    constructor; [now right|]. constructor.
  - apply Hraise. apply List.Exists_cons_tl. apply List.Exists_cons_hd.
    split; [compute; lia|reflexivity].
Defined.

End DecayShape.

(** ** More on the program's control flow *)

Module LoopRuns.
Import Loop LoopGhost LoopFacts.

(** *** Observations kept by the blocks *)

Section Keeps.
Context {B : Type} (g : state -> B).

Lemma keeps_bind {A A'} (m : M A) (f : A -> M A') :
  keeps g m -> (forall a, keeps g (f a)) -> keeps g (m ≫= f).
Proof.
  intros Hm Hf s. rewrite bind_run. specialize (Hm s).
  destruct (m s) as [t [a s'|s'|e s']]; simpl in *; try exact Hm.
  rewrite <- Hm. apply Hf.
Qed.

Lemma keeps_ret {A} (a : A) : keeps g (mret a : M A).
Proof. now intros s. Qed.

Lemma keeps_get : keeps g get.
Proof. now intros s. Qed.

Lemma keeps_modify f : (forall s, g (f s) = g s) -> keeps g (modify f).
Proof. intros Hf s. apply Hf. Qed.

Lemma keeps_emit e : keeps g (emit e).
Proof. now intros s. Qed.

Lemma keeps_break : keeps g break.
Proof. now intros s. Qed.

Lemma keeps_raise {A} e : keeps g (raise e : M A).
Proof. now intros s. Qed.

Lemma keeps_lift {A} (r : result A) : keeps g (lift r).
Proof. destruct r; now intros s. Qed.

Lemma keeps_when b m : (b = true -> keeps g m) -> keeps g (when b m).
Proof. destruct b; simpl; [auto|]. intros _. apply keeps_ret. Qed.

End Keeps.

Ltac keeps_step :=
  first
    [ apply keeps_ret | apply keeps_get | apply keeps_break
    | apply keeps_raise | apply keeps_lift | apply keeps_emit
    | apply keeps_modify; intros ?; reflexivity
    | apply keeps_bind; [|intros ?]
    | apply keeps_when; intros ?
    | match goal with
      | |- keeps _ (match ?x with _ => _ end) => destruct x
      | |- keeps _ (let _ := _ in _) => cbv zeta
      end ].

Ltac keeps_auto := repeat keeps_step.

(** Up to the increment of line 387 nothing changes [iter_num]. *)
Lemma before_increment_keeps_iter c p w :
  keeps iter_num
    (set_lr_block c;; eval_guard c p w;; eval_only_guard c;; train_block;;
     log_guard c p w).
Proof.
  unfold set_lr_block, eval_guard, eval_block, eval_only_guard, train_block,
    log_guard, log_block.
  keeps_auto.
Qed.

Lemma terminate_block_keeps_iter c w : keeps iter_num (terminate_block c w).
Proof. unfold terminate_block, results_write. keeps_auto. Qed.

(** The termination block lets the loop go on only within the budget. *)
Lemma terminate_block_continues c w s t a s' :
  terminate_block c w s = (t, Val a s') ->
  s' = s /\ iter_num s <= max_iters c.
Proof.
  unfold terminate_block, results_write. rewrite get_bind.
  destruct (Z.ltb_spec (max_iters c) (iter_num s)) as [Hlt|Hle].
  - rewrite ret_bind. cbn [when]. cbv zeta.
    destruct (lossf s), (hypergrad c), (results_dir w); discriminate.
  - destruct (losses s) as [l|]; [|discriminate].
    rewrite ret_bind. destruct (isnan (train l)); cbn [when].
    + cbv zeta.
      destruct (lossf s), (hypergrad c), (results_dir w); discriminate.
    + intros H. inversion H. subst. split; [reflexivity|lia].
Qed.

(** *** The loop ends *)

Lemma counts_one_bind c {A A'} (m : M A) (f : A -> M A') :
  keeps iter_num m -> (forall a, counts_one c (f a)) ->
  counts_one c (m ≫= f).
Proof.
  intros Hm Hf s t x s'. rewrite bind_run. specialize (Hm s).
  destruct (m s) as [t1 [a s1|s1|e s1]]; simpl in *; try discriminate.
  destruct (f a s1) as [t2 r] eqn:E. simpl. intros [= <- ->].
  rewrite <- Hm. now apply (Hf a s1 t2 x s').
Qed.

Lemma loop_body_counts_one c p w : counts_one c (loop_body c p w).
Proof.
  unfold loop_body.
  apply counts_one_bind; [unfold set_lr_block; keeps_auto|intros _].
  apply counts_one_bind;
    [unfold eval_guard, eval_block; keeps_auto|intros _].
  apply counts_one_bind; [unfold eval_only_guard; keeps_auto|intros _].
  apply counts_one_bind; [unfold train_block; keeps_auto|intros _].
  apply counts_one_bind; [unfold log_guard, log_block; keeps_auto|intros _].
  intros s t a s'. rewrite bind_run. simpl.
  destruct (terminate_block c w (next_iter s)) as [t2 r] eqn:E. simpl.
  intros [= <- ->].
  apply terminate_block_continues in E as [-> Hle]. simpl in *. lia.
Qed.

Lemma run_stops c p w (n : nat) :
  forall s, max_iters c - iter_num s < Z.of_nat n -> (1 <= n)%nat ->
    stopped (run n c p w s).2.
Proof.
  induction n as [|n IH]; intros s Hn H1; [lia|].
  simpl. destruct (loop_body c p w s) as [t [[] s1|s1|e s1]] eqn:E;
    simpl; try exact I.
  apply loop_body_counts_one in E as [Hs1 Hle].
  specialize (IH s1 ltac:(lia) ltac:(lia)).
  destruct (run n c p w s1) as [t' r]. exact IH.
Qed.

(** Once the loop has stopped, more fuel changes nothing. *)
Lemma run_stopped_more c p w (n k : nat) s :
  stopped (run n c p w s).2 -> run (n + k) c p w s = run n c p w s.
Proof.
  revert s. induction n as [|n IH]; intros s Hs; [destruct Hs|].
  simpl in *. destruct (loop_body c p w s) as [t [[] s1|s1|e s1]];
    try reflexivity.
  specialize (IH s1). destruct (run n c p w s1) as [t' r] eqn:E.
  simpl in *. now rewrite IH.
Qed.

(** The loop always ends, by [break] or by an exception, within
    [max_iters - iter_num + 1] passes (one pass if the budget is already
    spent): whatever the configuration, the process and the collaborators'
    answers. *)
Theorem loop_ends_within_budget (c : config) (p : process) (w : world)
    (s : state) :
  let n := S (Z.to_nat (max_iters c - iter_num s)) in
  stopped (run n c p w s).2 /\
  forall k, run (n + k) c p w s = run n c p w s.
Proof.
  intros n.
  assert (Hs : stopped (run n c p w s).2) by (apply run_stops; lia).
  split; [exact Hs|]. intros k. now apply run_stopped_more.
Qed.

(** *** A pass without [losses] *)

Lemma eval_guard_skip c p w s :
  eval_interval c <> 0 ->
  master_process p = false \/ iter_num s mod eval_interval c <> 0 ->
  eval_guard c p w s = ([], Val tt s).
Proof.
  intros Hei H. unfold eval_guard.
  rewrite get_bind, py_mod_Return by assumption. simpl lift.
  rewrite ret_bind.
  destruct H as [->|H]; [now rewrite andb_false_r|].
  now destruct (Z.eqb_spec (iter_num s mod eval_interval c) 0).
Qed.




Lemma bind_exc {A B} (m : M A) (f : A -> M B) s t e s' :
  m s = (t, Exc e s') -> (m ≫= f) s = (t, Exc e s').
Proof. intros Hm. now rewrite bind_run, Hm. Qed.

Lemma bind_brk {A B} (m : M A) (f : A -> M B) s t s' :
  m s = (t, Brk s') -> (m ≫= f) s = (t, Brk s').
Proof. intros Hm. now rewrite bind_run, Hm. Qed.



(** *** Eval-only runs *)

Lemma eval_block_quiet c w s :
  List.filter is_results (eval_block c w s).1 = [] /\
  List.filter is_training (eval_block c w s).1 = [].
Proof.
  split.
  - assert (H : silent is_results (eval_block c w))
      by (unfold eval_block; silent_auto).
    apply H.
  - assert (H : silent is_training (eval_block c w))
      by (unfold eval_block; silent_auto).
    apply H.
Qed.

Lemma eval_only_guard_break c s :
  iter_num s = 0 -> eval_only c = true ->
  eval_only_guard c s = ([], Brk s).
Proof.
  intros Hit He. unfold eval_only_guard. now rewrite get_bind, Hit, He.
Qed.



Lemma bind_congr {A B} (m : M A) (f g : A -> M B) (s : state) :
  (forall t a s', m s = (t, Val a s') -> f a s' = g a s') ->
  (m ≫= f) s = (m ≫= g) s.
Proof.
  intros H. rewrite !bind_run.
  destruct (m s) as [t [a s'|s'|e s']]; try reflexivity.
  now rewrite (H t a s' eq_refl).
Qed.

Lemma keeps_val {A B} (g : state -> B) (m : M A) s t a s' :
  keeps g m -> m s = (t, Val a s') -> g s' = g s.
Proof. intros Hk Hm. specialize (Hk s). now rewrite Hm in Hk. Qed.

Lemma set_lr_block_keeps_iter c : keeps iter_num (set_lr_block c).
Proof. unfold set_lr_block. keeps_auto. Qed.

Lemma eval_guard_keeps_iter c p w : keeps iter_num (eval_guard c p w).
Proof. unfold eval_guard, eval_block. keeps_auto. Qed.

(** [eval_only] is read at iteration 0 only: in a pass at any other
    iteration, as in every pass of a resumed run, the loop does exactly what
    it does with [eval_only] off, and trains. *)
Theorem eval_only_ignored_after_iteration_zero (c : config) (p : process)
    (w : world) (s : state) :
  iter_num s <> 0 ->
  loop_body c p w s = loop_body (without_eval_only c) p w s.
Proof.
  intros Hit. unfold loop_body.
  change (set_lr_block (without_eval_only c)) with (set_lr_block c).
  apply bind_congr. intros t1 [] s1 H1.
  change (eval_guard (without_eval_only c) p w) with (eval_guard c p w).
  apply bind_congr. intros t2 [] s2 H2.
  assert (Hs2 : iter_num s2 = iter_num s).
  { rewrite (keeps_val iter_num _ _ _ _ _ (eval_guard_keeps_iter c p w) H2).
    exact (keeps_val iter_num _ _ _ _ _ (set_lr_block_keeps_iter c) H1). }
  assert (Hz : (iter_num s2 =? 0) = false)
    by (apply Z.eqb_neq; congruence).
  rewrite !bind_run. unfold eval_only_guard. rewrite !get_bind, Hz.
  reflexivity.
Qed.

Lemma eval_only_ignored_after_iteration_zero_witness :
  loop_body eval_only_run single (replay [])
    (initial_state (Some (Checkpoint 2000 (Fin 2))))
  = loop_body (without_eval_only eval_only_run) single (replay [])
      (initial_state (Some (Checkpoint 2000 (Fin 2)))).
Proof.
  apply (eval_only_ignored_after_iteration_zero eval_only_run single
           (replay []) (initial_state (Some (Checkpoint 2000 (Fin 2))))).
  discriminate.
Defined.

(** *** Checkpoint and resume *)

Lemma keeps_after {A A' B} (g : state -> B) (m : M A) (f : A -> M A') s :
  (forall a, keeps g (f a)) ->
  g (state_of ((m ≫= f) s).2) = g (state_of (m s).2).
Proof.
  intros Hf. rewrite bind_run.
  destruct (m s) as [t [a s'|s'|e s']]; simpl; try reflexivity.
  apply Hf.
Qed.

Lemma after_eval_keeps_best c p w :
  keeps best_val_loss
    (eval_only_guard c;; train_block;; log_guard c p w;;
     modify next_iter;; terminate_block c w).
Proof.
  unfold eval_only_guard, train_block, log_guard, log_block, terminate_block, results_write.
  keeps_auto.
Qed.

Lemma eval_block_best c w s :
  lt (val (estimate_loss w (eval_calls s))) (best_val_loss s)
  || always_save_checkpoint c = true ->
  best_val_loss (state_of (eval_block c w s).2)
  = val (estimate_loss w (eval_calls s)).
Proof.
  unfold eval_block. rewrite get_bind. cbv zeta.
  destruct (wandb_log c), (lt _ _), (always_save_checkpoint c),
    (0 <? iter_num s); simpl; intros H; try reflexivity; discriminate.
Qed.

Lemma set_lr_block_cases c s :
  set_lr_block c s = ([EvSetLr], Val tt s) \/
  exists e, set_lr_block c s = ([], Exc e s).
Proof.
  unfold set_lr_block. rewrite get_bind.
  destruct (decay_lr c); [|now left].
  destruct (Schedule.get_lr (schedule c) (iter_num s)) as [r|e];
    [now left|right; now exists e].
Qed.

(** A checkpoint written in a pass records the iteration of that pass, a
    positive multiple of [eval_interval], and the [best_val_loss] the run
    carries from there on; a run resumed from it starts with these two
    values, and with [losses] and [lossf] unbound. *)
Theorem checkpoint_resume_round_trip (c : config) (p : process) (w : world)
    (s : state) (it : Z) (b : pyfloat) :
  In (EvSaveCheckpoint it b) (loop_body c p w s).1 ->
  let r := initial_state (Some (Checkpoint it b)) in
  iter_num r = iter_num s /\
  best_val_loss r = best_val_loss (state_of (loop_body c p w s).2) /\
  losses r = None /\ lossf r = None /\
  0 < it /\ it mod eval_interval c = 0 /\ master_process p = true.
Proof.
  intros Hin r. subst r. simpl.
  destruct (set_lr_block_cases c s) as [Hlr|[e Hlr]].
  2:{ unfold loop_body in Hin. rewrite (bind_exc _ _ _ _ _ _ Hlr) in Hin.
      destruct Hin. }
  assert (Hlr' : decay_lr c = false \/
    exists r, Schedule.get_lr (schedule c) (iter_num s) = Return r).
  { unfold set_lr_block in Hlr. rewrite get_bind in Hlr.
    destruct (decay_lr c); [right|now left].
    destruct (Schedule.get_lr (schedule c) (iter_num s)) as [x|x];
      [now exists x|discriminate]. }
  destruct (Z.eq_dec (eval_interval c) 0) as [Hei|Hei].
  { exfalso. unfold loop_body in Hin.
    assert (Hg : eval_guard c p w s = ([], Exc ZeroDivisionError s)).
    { unfold eval_guard, py_mod. rewrite get_bind, Hei. reflexivity. }
    rewrite (bind_val _ _ _ _ _ _ _ _ Hlr (bind_exc _ _ _ _ _ _ Hg)) in Hin.
    simpl in Hin. destruct Hin as [[=]|[]]. }
  assert (Hck : In (EvSaveCheckpoint it b)
                  (List.filter is_checkpoint (loop_body c p w s).1))
    by (apply List.filter_In; split; [exact Hin|reflexivity]).
  rewrite (loop_body_checkpoints c p w s Hlr'),
    (eval_guard_checkpoints c p w s Hei) in Hck.
  destruct (_ && _ && _ && _) eqn:Hdue in Hck; [|destruct Hck].
  destruct Hck as [[= <- <-]|[]].
  rewrite !andb_true_iff, Z.eqb_eq, Z.ltb_lt in Hdue.
  destruct Hdue as [[[Hmod Hm] Hbest] Hpos].
  split_and!; try reflexivity; try assumption.
  unfold loop_body.
  destruct ((eval_guard c p w;; eval_only_guard c;; train_block;;
             log_guard c p w;; modify next_iter;; terminate_block c w) s)
    as [tr rr] eqn:Hrest.
  rewrite (bind_val _ _ _ _ _ _ _ _ Hlr Hrest). simpl.
  change rr with (tr, rr).2. rewrite <- Hrest.
  rewrite (keeps_after best_val_loss)
    by (intros _; apply after_eval_keeps_best).
  rewrite (eval_guard_master c p w s Hei Hmod Hm).
  symmetry. now apply eval_block_best.
Qed.

Lemma checkpoint_resume_round_trip_witness :
  iter_num (initial_state (Some (Checkpoint 2 (Fin 2)))) = 2 /\
  best_val_loss (initial_state (Some (Checkpoint 2 (Fin 2)))) = Fin 2.
Proof.
  destruct (checkpoint_resume_round_trip (quiet 2 5 false) single
              (replay [Losses (Fin 1) (Fin 2)])
              (State 2 2 (Fin 3) None None 0) 2 (Fin 2))
    as (Hit & Hbest & _).
  - vm_compute. repeat first [left; reflexivity | right].
  - split; [exact Hit|reflexivity].
Defined.

(** *** A complete run of the leader *)

Lemma filter_step_of_training (t : list event) :
  List.filter is_training t = [] -> List.filter is_step t = [].
Proof.
  induction t as [|e t IH]; [reflexivity|].
  destruct e; simpl; intros H; try discriminate; now apply IH.
Qed.

Lemma log_guard_no_results c p w : silent is_results (log_guard c p w).
Proof. unfold log_guard, log_block. silent_auto. Qed.

Lemma eval_guard_leader c p w s :
  master_process p = true -> eval_interval c <> 0 ->
  (forall k, isnan (train (estimate_loss w k)) = false) ->
  (exists l, losses s = Some l /\ isnan (train l) = false) \/
  iter_num s mod eval_interval c = 0 ->
  exists t b l ec,
    eval_guard c p w s =
      (t, Val tt (State (iter_num s) (local_iter_num s) b (Some l) (lossf s)
                        ec)) /\
    isnan (train l) = false /\
    List.filter is_step t = [] /\
    List.filter is_results t = [].
Proof.
  intros Hm Hei Hw Hl.
  destruct (Z.eq_dec (iter_num s mod eval_interval c) 0) as [Hmod|Hmod].
  - destruct (eval_block_run c w s) as (t & b & Hrun & _ & Htr).
    destruct (eval_block_quiet c w s) as [Hres _]. rewrite Hrun in Hres.
    exists t, b, (estimate_loss w (eval_calls s)), (S (eval_calls s)).
    rewrite (eval_guard_master c p w s Hei Hmod Hm).
    split_and!; [exact Hrun|apply Hw|now apply filter_step_of_training|
                 exact Hres].
  - destruct Hl as [(l & Hl & Hnan)|Hl]; [|contradiction].
    exists [], (best_val_loss s), l, (eval_calls s).
    rewrite (eval_guard_skip c p w s Hei (or_intror Hmod)).
    split_and!; try reflexivity; [|exact Hnan].
    destruct s; simpl in *. now subst.
Qed.

(** The termination block once the budget is spent: [break], unless the
    summary row is asked for and its directory is missing. *)
Lemma terminate_block_budget c w s x :
  (max_iters c <? iter_num s) = true -> lossf s = Some x ->
  terminate_block c w s =
  if hypergrad c && negb (results_dir w)
  then (final_report w s,
        Exc FileNotFoundError
            (set_losses (estimate_loss w (eval_calls s)) s))
  else (final_events c w s,
        Brk (set_losses (estimate_loss w (eval_calls s)) s)).
Proof.
  intros Hmax Hf. rewrite terminate_block_stop by now left.
  cbv zeta. now rewrite Hf.
Qed.

Lemma final_events_filters c w s :
  List.filter is_step (final_report w s) = [] /\
  List.filter is_results (final_report w s) = [] /\
  List.filter is_step (final_events c w s) = [] /\
  List.filter is_results (final_events c w s) =
    if hypergrad c then [EvResultsWrite (results_file_of c)] else [].
Proof.
  unfold final_events, final_report. destruct (hypergrad c);
    split_and!; reflexivity.
Qed.

(** One pass of a leader that is [ready]. *)
Lemma leader_pass c p w s :
  master_process p = true ->
  eval_interval c <> 0 -> log_interval c <> 0 -> eval_only c = false ->
  decay_lr c = false \/
  (exists r, Schedule.get_lr (schedule c) (iter_num s) = Return r) ->
  (forall k, isnan (train (estimate_loss w k)) = false) ->
  ready c s ->
  exists t s',
    loop_body c p w s =
      (t, if max_iters c <? iter_num s + 1 then last_exit c w s'
          else Val tt s') /\
    iter_num s' = iter_num s + 1 /\
    ready c s' /\
    List.filter is_step t = [EvOptimizerStep (iter_num s)] /\
    List.filter is_results t =
      if (max_iters c <? iter_num s + 1) && hypergrad c && results_dir w
      then [EvResultsWrite (results_file_of c)]
      else [].
Proof.
  intros Hm Hei Hli Heo Hlr Hw [Hlosses Hlossf].
  destruct (eval_guard_leader c p w s Hm Hei Hw Hlosses)
    as (t1 & b & l & ec & Heg & Hnan & Hst1 & Hres1).
  set (s1 := State (iter_num s) (local_iter_num s) b (Some l) (lossf s) ec)
    in *.
  assert (Hlog : iter_num s1 mod log_interval c = 0 \/ is_Some (lossf s1))
    by (destruct Hlossf; [now right|now left]).
  destruct (log_guard_run c p w s1 l Hli Hm eq_refl Hlog)
    as (t2 & x & Hlg & _ & Htr2).
  pose proof (log_guard_no_results c p w s1) as Hres2.
  rewrite Hlg in Hres2. simpl in Hlg, Hres2.
  set (s2 := State (iter_num s) (local_iter_num s) b (Some l) (Some x) ec)
    in *.
  assert (Hpre : forall t r,
    terminate_block c w (next_iter s2) = (t, r) ->
    loop_body c p w s =
    ([EvSetLr] ++ t1 ++ [] ++
     [EvForwardBackward (iter_num s); EvGetBatch;
      EvOptimizerStep (iter_num s)] ++ t2 ++ [] ++ t, r)).
  { intros t r Hterm. unfold loop_body.
    eapply bind_val; [exact (set_lr_block_run c s Hlr)|].
    eapply bind_val; [exact Heg|].
    eapply bind_val;
      [apply eval_only_guard_skip; rewrite Heo; apply andb_false_r|].
    eapply bind_val; [exact (train_block_run s1)|].
    eapply bind_val; [exact Hlg|].
    eapply bind_val; [reflexivity|exact Hterm]. }
  destruct (final_events_filters c w (next_iter s2))
    as (Hrs & Hrr & Hfs & Hfr).
  destruct (max_iters c <? iter_num s + 1) eqn:Hmax.
  - pose proof (terminate_block_budget c w (next_iter s2) x Hmax eq_refl)
      as Hterm.
    unfold last_exit. cbn [andb].
    destruct (hypergrad c) eqn:Hh, (results_dir w) eqn:Hd; cbn [andb negb] in *;
      (do 2 eexists; split; [apply Hpre; exact Hterm|]);
      (split_and!;
       [ reflexivity
       | split; [left; eexists; split; [reflexivity|apply Hw]
                |left; now eexists]
       | rewrite !List.filter_app, Hst1, (filter_step_of_training t2 Htr2),
           ?Hfs, ?Hrs; reflexivity
       | rewrite !List.filter_app, Hres1, Hres2, ?Hfr, ?Hrr; reflexivity ]).
  - do 2 eexists. split.
    + apply Hpre. now apply terminate_block_on with l.
    + split_and!.
      * reflexivity.
      * split; [left; now exists l|left; now eexists].
      * rewrite !List.filter_app, Hst1, (filter_step_of_training t2 Htr2).
        reflexivity.
      * rewrite !List.filter_app, Hres1, Hres2. reflexivity.
Qed.

Lemma leader_run c p w (n : nat) :
  master_process p = true ->
  eval_interval c <> 0 -> log_interval c <> 0 -> eval_only c = false ->
  (forall k, isnan (train (estimate_loss w k)) = false) ->
  forall s,
    decay_lr c = false \/
    (forall it, iter_num s <= it <= max_iters c ->
       exists r, Schedule.get_lr (schedule c) it = Return r) ->
    ready c s ->
    Z.of_nat n = max_iters c - iter_num s ->
    exists t s',
      run (S n) c p w s = (t, last_exit c w s') /\
      iter_num s' = max_iters c + 1 /\
      length (List.filter is_step t) = S n /\
      List.filter is_results t =
        if hypergrad c && results_dir w
        then [EvResultsWrite (results_file_of c)] else [].
Proof.
  intros Hm Hei Hli Heo Hw. induction n as [|n IH]; intros s Hsc Hr Hn.
  - assert (Hlr : decay_lr c = false \/
      exists r, Schedule.get_lr (schedule c) (iter_num s) = Return r).
    { destruct Hsc as [?|Hsc]; [now left|right]. apply Hsc. lia. }
    destruct (leader_pass c p w s Hm Hei Hli Heo Hlr Hw Hr)
      as (t & s' & Hb & Hit & _ & Hst & Hres).
    assert (Hmax : (max_iters c <? iter_num s + 1) = true)
      by (apply Z.ltb_lt; lia).
    rewrite Hmax in Hb, Hres. exists t, s'. simpl. rewrite Hb.
    split_and!; [|lia|now rewrite Hst|exact Hres].
    unfold last_exit. now destruct (hypergrad c && negb (results_dir w)).
  - assert (Hlr : decay_lr c = false \/
      exists r, Schedule.get_lr (schedule c) (iter_num s) = Return r).
    { destruct Hsc as [?|Hsc]; [now left|right]. apply Hsc. lia. }
    destruct (leader_pass c p w s Hm Hei Hli Heo Hlr Hw Hr)
      as (t & s1 & Hb & Hit & Hr1 & Hst & Hres).
    assert (Hmax : (max_iters c <? iter_num s + 1) = false)
      by (apply Z.ltb_ge; lia).
    rewrite Hmax in Hb, Hres.
    destruct (IH s1) as (t' & s' & Hrun & Hit' & Hst' & Hres').
    { destruct Hsc as [?|Hsc]; [now left|right].
      intros it Hit1. apply Hsc. lia. }
    { exact Hr1. }
    { lia. }
    exists (t ++ t'), s'.
    change (run (S (S n)) c p w s) with
      (match loop_body c p w s with
       | (t, Val _ s') => let '(t', r) := run (S n) c p w s' in (t ++ t', r)
       | (t, r) => (t, r)
       end).
    rewrite Hb, Hrun.
    split_and!; [reflexivity|exact Hit'| |].
    + rewrite List.filter_app, length_app, Hst, Hst'. reflexivity.
    + now rewrite List.filter_app, Hres, Hres'.
Qed.

(** A leader in a [ready] state and within its budget, whose evaluations
    never return a NaN training loss and whose schedule returns a rate at
    every remaining step, runs through its budget: exactly
    [max_iters - iter_num + 1] meta-steps, [iter_num = max_iters + 1] at the
    end.  The loop is then left by [break], with the one summary row
    written exactly when [hypergrad] is set; unless [hypergrad] is set and
    the results directory is missing: the run then ends with
    [FileNotFoundError] and no summary row. *)
Theorem leader_run_completes (c : config) (p : process) (w : world)
    (s : state) :
  master_process p = true ->
  eval_interval c <> 0 -> log_interval c <> 0 -> eval_only c = false ->
  decay_lr c = false \/
  (forall it, iter_num s <= it <= max_iters c ->
     exists r, Schedule.get_lr (schedule c) it = Return r) ->
  (forall k, isnan (train (estimate_loss w k)) = false) ->
  ready c s -> iter_num s <= max_iters c ->
  let n := S (Z.to_nat (max_iters c - iter_num s)) in
  exists t s',
    run n c p w s =
      (t, if hypergrad c && negb (results_dir w)
          then Exc FileNotFoundError s' else Brk s') /\
    iter_num s' = max_iters c + 1 /\
    length (List.filter is_step t) = n /\
    List.filter is_results t =
      if hypergrad c && results_dir w
      then [EvResultsWrite (results_file_of c)] else [].
Proof.
  intros Hm Hei Hli Heo Hsc Hw Hr Hle n. subst n.
  apply leader_run; try assumption. lia.
Qed.

Lemma leader_run_completes_witness :
  (exists t s',
     run 6 (scheduled 2 5 false) single (replay []) (initial_state None)
       = (t, Brk s') /\
     iter_num s' = 5 + 1 /\
     length (List.filter is_step t) = 6%nat /\
     List.filter is_results t = [EvResultsWrite train_log_mada]) /\
  (exists t s',
     run 6 (scheduled 2 5 false) single (replay_fresh []) (initial_state None)
       = (t, Exc FileNotFoundError s') /\
     iter_num s' = 5 + 1 /\
     length (List.filter is_step t) = 6%nat /\
     List.filter is_results t = []).
Proof.
  split.
  - apply (leader_run_completes (scheduled 2 5 false) single (replay [])
             (initial_state None)).
    + reflexivity.
    + discriminate.
    + discriminate.
    + reflexivity.
    + right. intros it Hit. apply ScheduleShape.get_lr_returns.
      * reflexivity.
      * simpl in Hit. lia.
    + intros k. destruct k as [|k]; [reflexivity|now destruct k].
    + split; right; reflexivity.
    + discriminate.
  - apply (leader_run_completes (scheduled 2 5 false) single (replay_fresh [])
             (initial_state None)).
    + reflexivity.
    + discriminate.
    + discriminate.
    + reflexivity.
    + right. intros it Hit. apply ScheduleShape.get_lr_returns.
      * reflexivity.
      * simpl in Hit. lia.
    + intros k. destruct k as [|k]; [reflexivity|now destruct k].
    + split; right; reflexivity.
    + discriminate.
Defined.

End LoopRuns.

(** ** Resuming from a checkpoint *)

Module ResumeFacts.
Import Resume.

Section StateDict.
Context {V : Type}.
Implicit Types (items todo : list (string * V)) (d : gmap string V).

Lemma strip_step_clean d kv :
  prefixed kv.1 = false -> strip_step d kv = Return d.
Proof. intros H. unfold strip_step. now rewrite H. Qed.

Lemma rename_clean k : prefixed k = false -> rename k = k.
Proof. intros H. unfold rename. now rewrite H. Qed.

Lemma rename_prefixed k : prefixed k = true -> rename k = strip_key k.
Proof. intros H. unfold rename. now rewrite H. Qed.

(** A dictionary that carries no prefixed key is left as it is. *)
Theorem strip_prefix_clean items :
  Forall (fun kv => prefixed kv.1 = false) items ->
  strip_prefix items = Return (list_to_map items).
Proof.
  unfold strip_prefix. generalize (list_to_map items : gmap string V).
  intros d H. revert d.
  induction H as [|kv rest Hkv _ IH]; intros d; simpl; [reflexivity|].
  rewrite (strip_step_clean d kv Hkv). simpl. apply IH.
Qed.

Lemma renamed_keys items : (rename_item <$> items).*1 = rename <$> items.*1.
Proof.
  induction items as [|[k v] items IH]; [reflexivity|].
  csimpl. now rewrite IH.
Qed.

(** The loop invariant: the entries already visited sit under their new
    names, the others under their old ones. *)
Lemma strip_loop_renames (done todo : list (string * V)) :
  NoDup ((done ++ todo).*1) ->
  NoDup (rename <$> (done ++ todo).*1) ->
  (forall k, k ∈ (done ++ todo).*1 -> prefixed k = true ->
             strip_key k ∉ (done ++ todo).*1) ->
  strip_loop todo (list_to_map ((rename_item <$> done) ++ todo))
  = Return (list_to_map (rename_item <$> (done ++ todo))).
Proof.
  revert done. induction todo as [|[k v] rest IH]; intros done Hnd Hnr Hfresh.
  - simpl. now rewrite !app_nil_r.
  - assert (Hshift : done ++ (k, v) :: rest = (done ++ [(k, v)]) ++ rest)
      by now rewrite <- app_assoc.
    specialize (IH (done ++ [(k, v)])). rewrite <- Hshift in IH.
    specialize (IH Hnd Hnr Hfresh).
    simpl. unfold strip_step. simpl.
    destruct (prefixed k) eqn:Hp.
    + (* the key is renamed *)
      rewrite fmap_app, fmap_cons in Hnd.
      rewrite (fmap_app fst), (fmap_cons fst), (fmap_app rename),
        (fmap_cons rename) in Hnr. cbn [fst] in Hnd, Hnr.
      apply NoDup_app in Hnd as (Hnd1 & Hnd2 & Hnd3).
      apply NoDup_cons in Hnd3 as [Hk_rest _].
      apply NoDup_app in Hnr as (_ & Hnr2 & Hnr3).
      apply NoDup_cons in Hnr3 as [Hrk_rest _].
      assert (Hk_in : k ∈ (done ++ (k, v) :: rest).*1).
      { rewrite fmap_app. simpl. apply elem_of_app. right. apply elem_of_cons.
        now left. }
      pose proof (Hfresh k Hk_in Hp) as Hsk.
      rewrite fmap_app in Hsk. simpl in Hsk.
      rewrite elem_of_app, elem_of_cons in Hsk.
      assert (Hk_done : k ∉ (rename_item <$> done).*1).
      { intros Hin. rewrite <- list_fmap_compose in Hin.
        apply list_elem_of_fmap in Hin as ([k0 v0] & Hk0 & Hin0).
        simpl in Hk0.
        assert (Hk0in : k0 ∈ done.*1)
          by (apply list_elem_of_fmap; now exists (k0, v0)).
        destruct (prefixed k0) eqn:Hp0.
        - rewrite (rename_prefixed k0 Hp0) in Hk0.
          apply (Hfresh k0); [|exact Hp0|].
          + rewrite fmap_app. apply elem_of_app. now left.
          + rewrite <- Hk0. exact Hk_in.
        - rewrite (rename_clean k0 Hp0) in Hk0. subst k0.
          apply (Hnd2 k Hk0in). apply elem_of_cons. now left. }
      assert (Hsk_done : strip_key k ∉ (rename_item <$> done).*1).
      { intros Hin. rewrite <- list_fmap_compose in Hin.
        apply list_elem_of_fmap in Hin as ([k0 v0] & Hk0 & Hin0).
        simpl in Hk0.
        apply (Hnr2 (rename k0)).
        - apply list_elem_of_fmap. exists k0. split; [reflexivity|].
          apply list_elem_of_fmap. now exists (k0, v0).
        - apply elem_of_cons. left.
          now rewrite (rename_prefixed k Hp), Hk0. }
      set (m1 := list_to_map (rename_item <$> done) : gmap string V) in *.
      set (m2 := list_to_map rest : gmap string V) in *.
      assert (H1k : m1 !! k = None)
        by now apply not_elem_of_list_to_map_1.
      assert (H1s : m1 !! strip_key k = None)
        by now apply not_elem_of_list_to_map_1.
      assert (H2k : m2 !! k = None)
        by now apply not_elem_of_list_to_map_1.
      rewrite list_to_map_app, list_to_map_cons. fold m1 m2.
      rewrite (lookup_union_r m1 _ k H1k), lookup_insert_eq. simpl.
      rewrite <- IH. f_equal.
      rewrite fmap_app, list_to_map_app. simpl.
      rewrite list_to_map_app. fold m1 m2.
      change (rename_item (k, v)) with (rename k, v).
      rewrite list_to_map_cons, list_to_map_nil, (rename_prefixed k Hp).
      rewrite <- (assoc_L (∪)), <- insert_union_l, (left_id_L ∅ (∪)).
      rewrite delete_union, (delete_id m1 k H1k), delete_insert_eq,
        (delete_id m2 k H2k).
      now rewrite insert_union_r.
    + (* the key is kept *)
      simpl. rewrite <- IH. f_equal.
      rewrite fmap_app, <- app_assoc, fmap_cons, fmap_nil.
      change (rename_item (k, v)) with (rename k, v).
      now rewrite (rename_clean k Hp).
Qed.

(** When the renaming causes no clash (no two keys get the same new name,
    and no new name is the old name of another entry), stripping succeeds
    and the dictionary holds each tensor under its stripped name: nothing is
    lost and nothing else is added. *)
Theorem strip_prefix_renames items :
  NoDup items.*1 ->
  NoDup (rename <$> items.*1) ->
  (forall k, k ∈ items.*1 -> prefixed k = true -> strip_key k ∉ items.*1) ->
  strip_prefix items = Return (list_to_map (rename_item <$> items)) /\
  forall k v, (k, v) ∈ items ->
    (list_to_map (rename_item <$> items) : gmap string V) !! rename k = Some v.
Proof.
  intros Hnd Hnr Hfresh. split.
  - apply (strip_loop_renames [] items); assumption.
  - intros k v Hin. apply elem_of_list_to_map_1.
    + now rewrite renamed_keys.
    + apply list_elem_of_fmap. now exists (k, v).
Qed.

Lemma strip_loop_total todo d :
  NoDup todo.*1 ->
  (forall k, k ∈ todo.*1 -> is_Some (d !! k)) ->
  exists d', strip_loop todo d = Return d'.
Proof.
  revert d. induction todo as [|[k v] rest IH]; intros d Hnd Hin; simpl.
  - now exists d.
  - rewrite fmap_cons in Hnd. cbn [fst] in Hnd.
    apply NoDup_cons in Hnd as [Hk Hnd].
    unfold strip_step. cbn [fst].
    destruct (prefixed k).
    + destruct (Hin k) as [v' Hv']; [rewrite fmap_cons; apply elem_of_cons;
                                      now left|].
      rewrite Hv'. simpl. apply IH; [exact Hnd|].
      intros k2 Hk2.
      destruct (decide (strip_key k = k2)) as [->|Hne].
      * rewrite lookup_insert_eq. now eexists.
      * rewrite lookup_insert_ne by exact Hne.
        rewrite lookup_delete_ne by (intros ->; contradiction).
        apply Hin. rewrite fmap_cons. apply elem_of_cons. now right.
    + simpl. apply IH; [exact Hnd|].
      intros k2 Hk2. apply Hin. rewrite fmap_cons. apply elem_of_cons.
      now right.
Qed.

(** On a dictionary (no key twice) the loop never raises: every [pop] finds
    its key, whatever the names are, clashing or not. *)
Theorem strip_prefix_never_raises items :
  NoDup items.*1 -> exists d, strip_prefix items = Return d.
Proof.
  intros Hnd. apply strip_loop_total; [exact Hnd|].
  intros k Hk. destruct (list_to_map items !! k) as [v|] eqn:E;
    [now eexists|].
  now apply not_elem_of_list_to_map in E.
Qed.

(** *** The model arguments *)

Lemma force_args_spec (keys : list string) (ckpt : gmap string V) :
  forall args,
    (forall k, k ∈ keys -> is_Some (ckpt !! k)) ->
    exists args',
      force_args keys ckpt args = Return args' /\
      (forall k, k ∈ keys -> args' !! k = ckpt !! k) /\
      (forall k, k ∉ keys -> args' !! k = args !! k).
Proof.
  induction keys as [|k ks IH]; intros args Hall; simpl.
  - exists args. split_and!; [reflexivity| |reflexivity].
    intros k Hk. now apply elem_of_nil in Hk.
  - destruct (Hall k) as [v Hv]; [apply elem_of_cons; now left|].
    rewrite Hv.
    destruct (IH (<[k := v]> args)) as (args' & Hrun & Hin & Hout).
    { intros k' Hk'. apply Hall. apply elem_of_cons. now right. }
    exists args'. split_and!; [exact Hrun| |].
    + intros k' Hk'. destruct (decide (k' ∈ ks)) as [Hks|Hks].
      * now apply Hin.
      * apply elem_of_cons in Hk' as [->|Hk']; [|contradiction].
        now rewrite (Hout k Hks), lookup_insert_eq.
    + intros k' Hk'. rewrite not_elem_of_cons in Hk'. destruct Hk' as [Hne Hks].
      rewrite (Hout k' Hks). now rewrite lookup_insert_ne.
Qed.

Lemma force_args_missing (keys : list string) (ckpt : gmap string V) :
  forall args k,
    k ∈ keys -> ckpt !! k = None ->
    exists k', force_args keys ckpt args = Raise (KeyError k') /\
               k' ∈ keys /\ ckpt !! k' = None.
Proof.
  induction keys as [|k0 ks IH]; intros args k Hk Hnone; simpl.
  - now apply elem_of_nil in Hk.
  - destruct (ckpt !! k0) as [v|] eqn:E.
    + apply elem_of_cons in Hk as [->|Hk]; [congruence|].
      destruct (IH (<[k0 := v]> args) k Hk Hnone) as (k' & Hr & Hin & Hn).
      exists k'. split_and!; [exact Hr| |exact Hn].
      apply elem_of_cons. now right.
    + exists k0. split_and!; [reflexivity| |exact E].
      apply elem_of_cons. now left.
Qed.

(** On resume the six architecture fields silently take the values stored
    in the checkpoint, whatever was requested, and every other field, such
    as the dropout, keeps the requested value; the step fails only with a
    [KeyError], when the checkpoint lacks one of the six. *)
Theorem resume_model_args_spec (ckpt args : gmap string V) :
  ((forall k, k ∈ arch_keys -> is_Some (ckpt !! k)) ->
   exists args',
     resume_model_args ckpt args = Return args' /\
     (forall k, k ∈ arch_keys -> args' !! k = ckpt !! k) /\
     (forall k, k ∉ arch_keys -> args' !! k = args !! k)) /\
  (forall k, k ∈ arch_keys -> ckpt !! k = None ->
   exists k', resume_model_args ckpt args = Raise (KeyError k') /\
              k' ∈ arch_keys /\ ckpt !! k' = None).
Proof.
  split.
  - apply force_args_spec.
  - apply force_args_missing.
Qed.

End StateDict.

(** A decision procedure settles a closed, decidable statement. *)
Ltac decide_closed := refine (bool_decide_unpack _ _); vm_compute; exact I.

Lemma strip_prefix_clean_witness :
  strip_prefix [("wte.weight", 1); ("lm_head.bias", 2)]
  = Return (list_to_map [("wte.weight", 1); ("lm_head.bias", 2)]
            : gmap string Z).
Proof.
  apply (strip_prefix_clean [("wte.weight", 1); ("lm_head.bias", 2)]).
  repeat constructor.
Defined.

Lemma strip_prefix_renames_witness :
  strip_prefix compiled_state_dict
    = Return (list_to_map (rename_item <$> compiled_state_dict)) /\
  (list_to_map (rename_item <$> compiled_state_dict) : gmap string Z)
    !! "wte.weight" = Some 1.
Proof.
  destruct (strip_prefix_renames compiled_state_dict) as [Hrun Hlk].
  - decide_closed.
  - decide_closed.
  - intros k Hk _. unfold compiled_state_dict in Hk.
    rewrite !fmap_cons, fmap_nil in Hk. cbn [fst] in Hk.
    rewrite !elem_of_cons in Hk.
    destruct Hk as [->|[->|Hk]]; [decide_closed|decide_closed|].
    now apply elem_of_nil in Hk.
  - split; [exact Hrun|].
    apply (Hlk "_orig_mod.wte.weight" 1).
    apply elem_of_cons. now left.
Defined.

Lemma strip_prefix_never_raises_witness :
  exists d : gmap string Z,
    strip_prefix [("_orig_mod.a", 1); ("a", 2)] = Return d.
Proof.
  apply (strip_prefix_never_raises [("_orig_mod.a", 1); ("a", 2)]).
  decide_closed.
Defined.

Lemma resume_model_args_spec_witness :
  exists args',
    resume_model_args checkpoint_args requested_args = Return args' /\
    (forall k, k ∈ arch_keys -> args' !! k = checkpoint_args !! k) /\
    (forall k, k ∉ arch_keys -> args' !! k = requested_args !! k).
Proof.
  destruct (resume_model_args_spec checkpoint_args requested_args)
    as [Hok _].
  apply Hok. intros k Hk. unfold arch_keys in Hk.
  rewrite !elem_of_cons in Hk.
  destruct Hk as [->|[->|[->|[->|[->|[->|Hk]]]]]];
    first [decide_closed | now apply elem_of_nil in Hk].
Defined.

End ResumeFacts.

(** ** The batch loader *)

Module DataFacts.
Import Data.

Lemma slice_length {A} (l : list A) (a b : nat) :
  (a <= b)%nat -> (b <= length l)%nat -> length (slice l a b) = (b - a)%nat.
Proof. intros Hab Hb. unfold slice. rewrite length_take, length_drop. lia. Qed.

Lemma slice_lookup {A} (l : list A) (a b j : nat) :
  (j < b - a)%nat -> slice l a b !! j = l !! (a + j)%nat.
Proof.
  intros Hj. unfold slice. now rewrite lookup_take_lt, lookup_drop.
Qed.

Lemma stack_uniform {A} (rows : list (list A)) (n : nat) :
  rows <> [] -> Forall (fun r => length r = n) rows ->
  stack rows = Some rows.
Proof.
  intros Hne Hall. destruct rows as [|r rs]; [contradiction|]. simpl.
  apply Forall_cons in Hall as [Hr Hrs].
  assert (H : forallb (fun r' => (length r' =? length r)%nat) rs = true).
  { apply forallb_forall. intros r' Hin. apply Nat.eqb_eq.
    rewrite Forall_forall in Hrs. rewrite Hr.
    apply Hrs. now apply list_elem_of_In. }
  now rewrite H.
Qed.

(** When the corpus is longer than a block and the indices are those
    [randint] can draw (below [len(data) - block_size]), the loader returns
    one input row and one target row per index, each of exactly
    [block_size] tokens, the input row being the window of the corpus at the
    index and the target row the same window one token later: [y] is [x]
    shifted by one position. *)
Theorem get_batch_windows (data : list Z) (block_size : nat) (ix : list nat) :
  (block_size < length data)%nat ->
  Forall (fun i => (i < length data - block_size)%nat) ix ->
  ix <> [] ->
  exists x y,
    get_batch data block_size ix = Some (x, y) /\
    length x = length ix /\ length y = length ix /\
    forall r i, ix !! r = Some i ->
      exists xr yr,
        x !! r = Some xr /\ y !! r = Some yr /\
        length xr = block_size /\ length yr = block_size /\
        (forall j, (j < block_size)%nat ->
           xr !! j = data !! (i + j)%nat /\
           yr !! j = data !! (i + 1 + j)%nat /\
           is_Some (xr !! j) /\ is_Some (yr !! j)) /\
        (forall j, (S j < block_size)%nat -> yr !! j = xr !! S j).
Proof.
  intros Hlen Hix Hne. unfold get_batch.
  destruct (Nat.leb_spec (length data) block_size) as [Hle|_]; [lia|].
  set (xs := (fun i => slice data i (i + block_size)) <$> ix).
  set (ys := (fun i => slice data (i + 1) (i + 1 + block_size)) <$> ix).
  assert (Hxs : Forall (fun r => length r = block_size) xs).
  { subst xs. apply Forall_fmap. eapply Forall_impl; [exact Hix|].
    intros i Hi. unfold compose. cbv beta in *. rewrite slice_length; lia. }
  assert (Hys : Forall (fun r => length r = block_size) ys).
  { subst ys. apply Forall_fmap. eapply Forall_impl; [exact Hix|].
    intros i Hi. unfold compose. cbv beta in *. rewrite slice_length; lia. }
  rewrite (stack_uniform xs block_size), (stack_uniform ys block_size);
    try assumption; try (subst xs ys; now destruct ix).
  simpl. exists xs, ys. split; [reflexivity|].
  split; [subst xs; apply length_fmap|].
  split; [subst ys; apply length_fmap|].
  intros r i Hr.
  assert (Hi : (i < length data - block_size)%nat).
  { rewrite Forall_forall in Hix. apply Hix.
    apply list_elem_of_lookup. now exists r. }
  exists (slice data i (i + block_size)),
         (slice data (i + 1) (i + 1 + block_size)).
  split; [subst xs; now rewrite list_lookup_fmap, Hr|].
  split; [subst ys; now rewrite list_lookup_fmap, Hr|].
  split; [rewrite slice_length; lia|].
  split; [rewrite slice_length; lia|].
  split.
  - intros j Hj.
    rewrite !slice_lookup by lia.
    split_and!; try reflexivity; apply lookup_lt_is_Some; lia.
  - intros j Hj. rewrite !slice_lookup by lia. f_equal. lia.
Qed.

Lemma get_batch_windows_witness :
  exists x y,
    get_batch [10; 11; 12; 13; 14; 15] 3 [2%nat; 0%nat] = Some (x, y) /\
    length x = 2%nat /\ length y = 2%nat.
Proof.
  destruct (get_batch_windows [10; 11; 12; 13; 14; 15] 3 [2%nat; 0%nat])
    as (x & y & Hrun & Hx & Hy & _).
  - simpl. lia.
  - repeat constructor; simpl; lia.
  - discriminate.
  - now exists x, y.
Defined.

End DataFacts.

(** ** Gradient accumulation under data parallelism *)

Module StartupFacts.
Import Loop Startup.

(** The process set-up succeeds exactly when the scaled accumulation count
    exists, and the number of tokens per iteration is then that of the
    configuration, whatever the number of processes: the total batch does
    not depend on the world size.  A failed set-up fails the count with the
    same exception. *)
Theorem tokens_per_iter_keeps_total (c : config) (p : process)
    (batch_size block_size : Z) :
  (ddp_setup c p = Return tt ->
   tokens_per_iter c p batch_size block_size =
   Return (gradient_accumulation_steps c * batch_size * block_size)) /\
  (forall e, ddp_setup c p = Raise e ->
   tokens_per_iter c p batch_size block_size = Raise e).
Proof.
  unfold ddp_setup, tokens_per_iter, accumulation_steps, world_size, py_mod.
  destruct (ddp p);
    [|split; [intros _; simpl; f_equal; ring|discriminate]].
  destruct (Z.eqb_spec (WORLD_SIZE p) 0) as [Hw|Hw]; simpl;
    [split; [discriminate|now intros e [= <-]]|].
  destruct (Z.eqb_spec (gradient_accumulation_steps c mod WORLD_SIZE p) 0)
    as [Hmod|Hmod]; simpl; [|split; [discriminate|now intros e [= <-]]].
  split; [intros _|discriminate]. f_equal.
  rewrite (Z_div_exact_full_2 (gradient_accumulation_steps c) (WORLD_SIZE p)
             Hw Hmod) at 2.
  ring.
Qed.

Lemma tokens_per_iter_keeps_total_witness :
  tokens_per_iter (quiet 2000 600000 true) worker 12 1024
  = Return (2 * 12 * 1024).
Proof.
  apply (tokens_per_iter_keeps_total (quiet 2000 600000 true) worker 12 1024).
  reflexivity.
Defined.

End StartupFacts.

(** ** The evaluation sampler *)

Module EvalFacts.
Import Loop LoopGhost LoopFacts Eval.

(** When a running sum is NaN: it was NaN, a NaN is added, or infinities
    of both signs meet. *)
Lemma fold_pf_add_nan (l : list pyfloat) :
  forall acc,
    isnan (fold_left pf_add l acc) = true <->
    acc = NaN \/ In NaN l \/
    (In (Inf false) (acc :: l) /\ In (Inf true) (acc :: l)).
Proof.
  induction l as [|x l IH]; intros acc.
  - simpl. destruct acc as [|[|]|q]; simpl; split; intros H;
      try discriminate; try reflexivity; auto;
      destruct H as [H|[H|[[H|[]] [H'|[]]]]];
      try discriminate; try contradiction; congruence.
  - simpl fold_left. rewrite IH. clear IH.
    destruct acc as [|[|]|a], x as [|[|]|b]; simpl;
      intuition (try discriminate; try congruence; auto).
Qed.

Lemma pf_div_nan (x : pyfloat) (n : nat) :
  isnan (pf_div x (S n)) = isnan x.
Proof. now destruct x. Qed.

(** The estimate of a split is NaN exactly when no batch was sampled, when
    the loss of some batch is NaN, or when the losses hold infinities of
    both signs. *)
Theorem mean_nan_iff (l : list pyfloat) :
  isnan (mean l) = true <->
  l = [] \/ In NaN l \/ (In (Inf false) l /\ In (Inf true) l).
Proof.
  unfold mean. destruct l as [|x l].
  - simpl. split; [now left|reflexivity].
  - cbn [length]. rewrite pf_div_nan, fold_pf_add_nan.
    split.
    + intros [H|[H|[[H|H] [H'|H']]]]; try discriminate; auto.
    + intros [H|[H|[H H']]]; [discriminate|auto|].
      right. right. split; now right.
Qed.

Lemma mean_nan_iff_witness :
  isnan (mean [Fin 1; NaN; Fin 2]) = true.
Proof.
  apply (mean_nan_iff [Fin 1; NaN; Fin 2]).
  right. left. right. now left.
Defined.

Lemma estimate_loss_zero_iters (batch_loss : split -> nat -> pyfloat) :
  estimate_loss 0 batch_loss = Losses NaN NaN.
Proof. reflexivity. Qed.

Lemma filter_step_training (t : list event) :
  List.filter is_step t = List.filter is_step (List.filter is_training t).
Proof.
  induction t as [|e t IH]; [reflexivity|].
  destruct e; simpl; now rewrite ?IH.
Qed.

(** A pass of the leader whose periodic evaluation measures a NaN training
    loss ends the loop after its meta-step, as the end of the budget
    does. *)
Lemma nan_pass c p (w : world) s :
  master_process p = true ->
  decay_lr c = false \/
  (exists r, Schedule.get_lr (schedule c) (iter_num s) = Return r) ->
  eval_interval c <> 0 -> iter_num s mod eval_interval c = 0 ->
  (iter_num s =? 0) && eval_only c = false ->
  log_interval c <> 0 ->
  iter_num s mod log_interval c = 0 \/ is_Some (lossf s) ->
  isnan (train (Loop.estimate_loss w (eval_calls s))) = true ->
  exists t s',
    loop_body c p w s = (t, last_exit c w s') /\
    iter_num s' = iter_num s + 1 /\
    List.filter is_step t = [EvOptimizerStep (iter_num s)].
Proof.
  intros Hm Hlr Hei Hmod Heo Hli Hlog Hnan.
  destruct (leader_eval_pass c p w s Hm Hlr Hei Hmod Heo Hli)
    as (pre & s1 & Hbody & _ & Htr & Hit & _ & Hl & Hlg).
  apply Hlg in Hlog as [x Hx].
  pose proof (terminate_block_stop c w s1
                (or_intror (ex_intro _ _ (conj Hl Hnan)))) as Hterm.
  cbv zeta in Hterm. rewrite Hx in Hterm.
  destruct (LoopRuns.final_events_filters c w s1) as (Hrs & _ & Hfs & _).
  unfold last_exit.
  destruct (hypergrad c && negb (results_dir w));
    (do 2 eexists; split; [apply Hbody; exact Hterm|]);
    (split; [exact Hit|]);
    rewrite List.filter_app, filter_step_training, Htr, ?Hrs, ?Hfs;
    reflexivity.
Qed.

(** With [eval_iters = 0] each estimate is the mean of no loss at all, a
    NaN: the leader's run from scratch ends in its first pass, whatever the
    model and the iteration budget.  Under [eval_only] it is left at
    iteration 0 before any meta-step; otherwise it does one meta-step and
    stops at [iter_num = 1], by [break], or by [FileNotFoundError] when
    [hypergrad] asks for a summary row and the results directory is
    missing. *)
Theorem zero_eval_iters_stop_training (c : config) (p : process)
    (model : nat -> split -> nat -> pyfloat) (step_loss : Z -> pyfloat)
    (dir : bool) (fuel : nat) :
  master_process p = true ->
  decay_lr c = false \/
  (exists r, Schedule.get_lr (schedule c) 0 = Return r) ->
  eval_interval c <> 0 -> log_interval c <> 0 ->
  let w := sampling_world 0 model step_loss dir in
  exists t s',
    run (S fuel) c p w (initial_state None) =
      (t, if eval_only c then Brk s'
          else if hypergrad c && negb dir then Exc FileNotFoundError s'
          else Brk s') /\
    iter_num s' = (if eval_only c then 0 else 1) /\
    List.filter is_step t = if eval_only c then [] else [EvOptimizerStep 0].
Proof.
  intros Hm Hlr Hei Hli w.
  destruct (eval_only c) eqn:Heo.
  - destruct (eval_block_run c w (initial_state None))
      as (t1 & b & Hrun & _ & Htr).
    eassert (Hb : loop_body c p w (initial_state None) = (_, Brk _)).
    { unfold loop_body.
      eapply bind_val;
        [exact (set_lr_block_run c (initial_state None) Hlr)|].
      eapply bind_val;
        [rewrite (eval_guard_master c p w (initial_state None) Hei
                    (Z.mod_0_l _ Hei) Hm);
         exact Hrun|].
      apply LoopRuns.bind_brk.
      apply LoopRuns.eval_only_guard_break; [reflexivity|exact Heo]. }
    do 2 eexists. split; [cbn [run]; rewrite Hb; reflexivity|].
    split; [reflexivity|].
    simpl. rewrite app_nil_r. now apply LoopRuns.filter_step_of_training.
  - assert (H0 : (iter_num (initial_state None) =? 0) && eval_only c = false)
      by (rewrite Heo; apply andb_false_r).
    destruct (nan_pass c p w (initial_state None) Hm Hlr Hei
                (Z.mod_0_l _ Hei) H0 Hli (or_introl (Z.mod_0_l _ Hli))
                eq_refl)
      as (t & s' & Hb & Hit & Hst).
    exists t, s'. cbn [run]. rewrite Hb. unfold last_exit.
    change (results_dir w) with dir.
    split_and!; [|exact Hit|exact Hst].
    now destruct (hypergrad c && negb dir).
Qed.

Lemma zero_eval_iters_stop_training_witness :
  (exists t s',
     run 10 (quiet 2000 600000 true) single
         (sampling_world 0 (fun _ _ _ => Fin 1) (fun _ => Fin 1) false)
         (initial_state None)
       = (t, Exc FileNotFoundError s') /\
     iter_num s' = 1 /\
     List.filter is_step t = [EvOptimizerStep 0]) /\
  (exists t s',
     run 10 eval_only_run single
         (sampling_world 0 (fun _ _ _ => Fin 1) (fun _ => Fin 1) true)
         (initial_state None)
       = (t, Brk s') /\
     iter_num s' = 0 /\
     List.filter is_step t = []).
Proof.
  split.
  - apply (zero_eval_iters_stop_training (quiet 2000 600000 true) single
             (fun _ _ _ => Fin 1) (fun _ => Fin 1) false 9).
    + reflexivity.
    + left. reflexivity.
    + discriminate.
    + discriminate.
  - apply (zero_eval_iters_stop_training eval_only_run single
             (fun _ _ _ => Fin 1) (fun _ => Fin 1) true 9).
    + reflexivity.
    + left. reflexivity.
    + discriminate.
    + discriminate.
Defined.

End EvalFacts.
